(** * MLM trend-following strategy: a shallow embedding of [main.py]

    The script connects to a broker session, pulls daily bars of a
    continuous future per instrument, derives a 20-day realized volatility,
    a 200-day moving average and a +1/-1 trend signal, averages the latest
    volatilities over the basket and, on the 25th of the month and when that
    average exceeds a threshold, places one market order per instrument on
    its front-month contract.

    Numbers are IEEE 754 binary64 values, as Python's [float] and the
    columns of a pandas frame are: Rocq's primitive floats, with NaN as the
    missing value.  A frame is the list of its rows, each row carrying its
    index label.  The broker session and the clock are a record of the
    answers they give; what the script does to them (requests, orders,
    printed lines, the disconnect) is the trace a run returns. *)

Set Warnings "-inexact-float".

From Stdlib Require Import String Ascii List ZArith Bool Lia Uint63 Floats.
From Stdlib Require Import Permutation Sorted.
Import ListNotations.

(* ================================================================= *)
(** ** 1. Universe and parameters *)

(** One entry of [mlm_universe]: a dict with these four keys. *)
Record SymbolInfo := mkSymbolInfo {
  symbol : string;
  exchange : string;
  currency : string;
  category : string
}.

Definition mlm_universe : list SymbolInfo :=
  [ mkSymbolInfo "ZC" "CBOT" "USD" "Grains";
    mkSymbolInfo "ZW" "CBOT" "USD" "Grains";
    mkSymbolInfo "ZS" "CBOT" "USD" "Grains";
    mkSymbolInfo "ZM" "CBOT" "USD" "Grains";
    mkSymbolInfo "ZL" "CBOT" "USD" "Grains";
    mkSymbolInfo "LE" "CME" "USD" "Cattle";
    mkSymbolInfo "CL" "NYMEX" "USD" "Energy";
    mkSymbolInfo "HO" "NYMEX" "USD" "Energy";
    mkSymbolInfo "RB" "NYMEX" "USD" "Energy";
    mkSymbolInfo "NG" "NYMEX" "USD" "Energy";
    mkSymbolInfo "GC" "COMEX" "USD" "Metals";
    mkSymbolInfo "SI" "COMEX" "USD" "Metals";
    mkSymbolInfo "HG" "COMEX" "USD" "Metals";
    mkSymbolInfo "SB" "NYBOT" "USD" "Softs";
    mkSymbolInfo "KC" "NYBOT" "USD" "Softs";
    mkSymbolInfo "CT" "NYBOT" "USD" "Softs";
    mkSymbolInfo "ZF" "CBOT" "USD" "Softs";
    mkSymbolInfo "ZN" "CBOT" "USD" "Treasurys";
    mkSymbolInfo "ZB" "CBOT" "USD" "Treasurys";
    mkSymbolInfo "AUD" "CME" "USD" "Currencys";
    mkSymbolInfo "GBP" "CME" "USD" "Currencys";
    mkSymbolInfo "CAD" "CME" "USD" "Currencys";
    mkSymbolInfo "EUR" "CME" "USD" "Currencys";
    mkSymbolInfo "CHF" "CME" "USD" "Currencys";
    mkSymbolInfo "JPY" "CME" "USD" "Currencys" ]%string.

Definition VOL_THRESHOLD : float := 0.015%float.
Definition VOL_WINDOW : nat := 20.
Definition MA_WINDOW : nat := 200.
Definition CONTRACT_SIZE : Z := 1.

(* ================================================================= *)
(** ** 2. Floating-point helpers *)

(** Python's [a > b] on floats: false as soon as one side is NaN. *)
Definition fgt (a b : float) : bool := PrimFloat.ltb b a.

(** A C [Py_ssize_t] count cast to [double]. *)
Definition float_of_nat (n : nat) : float :=
  PrimFloat.of_uint63 (Uint63.of_Z (Z.of_nat n)).

(** Finite and not zero: the float has a mantissa. *)
Definition finite_nonzero (x : float) : bool :=
  match Prim2SF x with
  | S754_finite _ _ _ => true
  | _ => false
  end.

(** Finite and strictly positive. *)
Definition positive_float (x : float) : bool :=
  match Prim2SF x with
  | S754_finite false _ _ => true
  | _ => false
  end.

Definition not_nan (x : float) : bool := negb (PrimFloat.is_nan x).

(** Sum of the entries, added left to right from 0. *)
Definition fsum (xs : list float) : float :=
  fold_left PrimFloat.add xs 0%float.

(** [np.mean] of a list of floats: the sum of the entries over their count.
    The entries are added left to right here; numpy's own order of
    additions can differ from it in the last bit of a long sum. *)
Definition np_mean (xs : list float) : float :=
  (fsum xs / float_of_nat (length xs))%float.

(** Sample standard deviation ([ddof = 1]), what [rolling(w).std()] yields
    for a full window: the square root of the sum of squared deviations
    from the mean over [n - 1]; NaN for a single entry. *)
Definition sample_std (xs : list float) : float :=
  let m := np_mean xs in
  PrimFloat.sqrt
    (fsum (map (fun x => ((x - m) * (x - m))%float) xs)
     / float_of_nat (length xs - 1))%float.

(* ================================================================= *)
(** ** 3. Frames: bars, derived rows and the pandas operations used *)

Record Date := mkDate { year : Z; month : Z; day : Z }.

Definition date_ltb (a b : Date) : bool :=
  ((year a <? year b)
   || ((year a =? year b) && ((month a <? month b)
       || ((month a =? month b) && (day a <? day b)))))%Z.

(** One daily bar as the session hands it back ([BarData]); its fields are
    the columns of [util.df(bars)]. *)
Record BarData := mkBarData {
  date : Date;
  open_ : float;
  high : float;
  low : float;
  close : float;
  volume : float;
  average : float;
  barCount : Z
}.

(** A row of the frame [get_continuous_data] returns: the bar's columns and
    the attached [symbol] column. *)
Record Bar := mkBar {
  data : BarData;
  bar_symbol : string
}.

(** [util.df(bars)] followed by [df['symbol'] = sym]. *)
Definition attach_symbol (sym : string) (bars : list BarData) : list Bar :=
  map (fun b => mkBar b sym) bars.

(** A row of the frame [compute_indicators] returns: the input row and the
    four derived columns, under the row's index label. *)
Record Row := mkRow {
  idx : nat;
  bar : Bar;
  return_ : float;
  rolling_std_20 : float;
  MA200 : float;
  signal : Z
}.

Definition row_close (r : Row) : float := close (data (bar r)).

(** [Series.pct_change()]: [x[i] / x[i-1] - 1], NaN at the first position
    (a NaN close, which no bar of the session carries, is not filled). *)
Definition pct_change (xs : list float) : list float :=
  match xs with
  | [] => []
  | _ :: later =>
      PrimFloat.nan
        :: map (fun pc => (snd pc / fst pc - 1)%float) (combine xs later)
  end.

(** The [w] entries ending at position [i]; [None] while fewer exist. *)
Definition window_at (w i : nat) (xs : list float) : option (list float) :=
  if w <=? i + 1 then Some (firstn w (skipn (i + 1 - w) xs)) else None.

(** [Series.rolling(w).agg()] with the default [min_periods = w]: NaN
    unless the window holds [w] observations none of which is NaN. *)
Definition rolling_at (w : nat) (agg : list float -> float)
  (xs : list float) (i : nat) : float :=
  match window_at w i xs with
  | Some win => if forallb not_nan win then agg win else PrimFloat.nan
  | None => PrimFloat.nan
  end.

Definition rolling (w : nat) (agg : list float -> float) (xs : list float)
  : list float :=
  map (rolling_at w agg xs) (seq 0 (length xs)).

Definition rolling_std (w : nat) := rolling w sample_std.
Definition rolling_mean (w : nat) := rolling w np_mean.

(** [np.where(a > b, 1, -1)], position by position. *)
Definition np_where_gt (a b : list float) : list Z :=
  map (fun ab => if fgt (fst ab) (snd ab) then 1%Z else (-1)%Z) (combine a b).

(** A row has a missing value when one of its float columns is NaN (dates,
    symbols and integer columns cannot be). *)
Definition row_has_nan (r : Row) : bool :=
  let b := data (bar r) in
  existsb PrimFloat.is_nan
    [open_ b; high b; low b; close b; volume b; average b;
     return_ r; rolling_std_20 r; MA200 r].

(** [DataFrame.dropna()]: the rows without a missing value, labels kept. *)
Definition dropna (rows : list Row) : list Row :=
  filter (fun r => negb (row_has_nan r)) rows.

(** The frame with its derived columns, before [dropna]; columns are
    aligned on the index label. *)
Definition with_indicators (vw mw : nat) (df : list Bar) : list Row :=
  let closes := map (fun b => close (data b)) df in
  let returns := pct_change closes in
  let stds := rolling_std vw returns in
  let mas := rolling_mean mw closes in
  let signals := np_where_gt closes mas in
  map (fun ib =>
         let i := fst ib in
         mkRow i (snd ib)
           (nth i returns PrimFloat.nan)
           (nth i stds PrimFloat.nan)
           (nth i mas PrimFloat.nan)
           (nth i signals (-1)%Z))
      (combine (seq 0 (length df)) df).

(** [compute_indicators] with the two windows as parameters. *)
Definition compute_indicators_with (vw mw : nat) (df : list Bar) : list Row :=
  dropna (with_indicators vw mw df).

(** [compute_indicators(df)]: the module's windows. *)
Definition compute_indicators (df : list Bar) : list Row :=
  compute_indicators_with VOL_WINDOW MA_WINDOW df.

(** Dates strictly increasing along the frame; the source never asks. *)
Fixpoint dates_increasing (df : list Bar) : bool :=
  match df with
  | [] => true
  | b :: rest =>
      match rest with
      | [] => true
      | b' :: _ =>
          date_ltb (date (data b)) (date (data b')) && dates_increasing rest
      end
  end.

(* ================================================================= *)
(** ** 4. Contracts and front-month selection *)

(** An [ib_insync] contract, with the fields the script sets or reads. *)
Record Contract := mkContract {
  secType : string;
  conId : Z;
  c_symbol : string;
  lastTradeDateOrContractMonth : string;
  c_exchange : string;
  c_currency : string
}.

(** [ContFuture(symbol=.., exchange=.., currency=..)]. *)
Definition ContFuture (sym exch cur : string) : Contract :=
  mkContract "CONTFUT" 0 sym "" exch cur.

(** [Future(symbol=.., exchange=.., currency=..)]: no contract month. *)
Definition Future (sym exch cur : string) : Contract :=
  mkContract "FUT" 0 sym "" exch cur.

Record ContractDetails := mkContractDetails {
  contract : Contract;
  longName : string
}.

(** The test of the filtering loop: the token is truthy (not the empty
    string) and has at least six characters. *)
Definition has_valid_month (c : Contract) : bool :=
  negb (String.eqb (lastTradeDateOrContractMonth c) "")
  && (6 <=? String.length (lastTradeDateOrContractMonth c)).

(** The list [valid_contracts] the loop over [details] builds. *)
Definition valid_contracts (details : list ContractDetails) : list Contract :=
  filter has_valid_month (map contract details).

(** [list.sort(key=lambda x: x.lastTradeDateOrContractMonth)]: Python's
    sort compares keys with [<] and is stable; a stable insertion sort
    computes the same list.  [insert_by_month c l] puts [c], which stood
    before every entry of [l], in front of the first entry whose key is not
    smaller. *)
Fixpoint insert_by_month (c : Contract) (sorted : list Contract)
  : list Contract :=
  match sorted with
  | [] => [c]
  | d :: rest =>
      if String.ltb (lastTradeDateOrContractMonth d)
                    (lastTradeDateOrContractMonth c)
      then d :: insert_by_month c rest
      else c :: d :: rest
  end.

Definition sort_by_month (l : list Contract) : list Contract :=
  fold_right insert_by_month [] l.

(* ================================================================= *)
(** ** 5. Session, clock and trace *)

Inductive PyExn :=
| ConnectionError (msg : string)
| RequestError (msg : string).

(** What a Python call does: hand back a value or raise. *)
Inductive PyResult (A : Type) :=
| Returned (v : A)
| Raised (e : PyExn).
Arguments Returned {A} v.
Arguments Raised {A} e.

(** The session as the answers it gives: whether [connect] leaves it
    connected, the bars of a continuous future (or the exception the request
    raises, which the script catches) and the details listed for an undated
    future.  The script puts no handler around the request for details or
    around [placeOrder]; both are taken to return, as [ib_insync] answers a
    request the venue rejects with an empty list. *)
Record IB := mkIB {
  isConnected : bool;
  reqHistoricalData : Contract -> PyResult (list BarData);
  reqContractDetails : Contract -> list ContractDetails
}.

(** The outside of a run: the session and [datetime.today()]. *)
Record World := mkWorld {
  session : IB;
  today : Date
}.

Inductive Action := BUY | SELL.

(** [MarketOrder(action, totalQuantity)]. *)
Record Order := MarketOrder {
  action : Action;
  totalQuantity : Z
}.

(** The lines the script prints, one constructor per [print]. *)
Inductive LogLine :=
| LogConnected (paper : bool) (port : Z)
| LogFetchFailed (sym : string) (e : PyExn)
| LogNoBars (sym : string)
| LogEmptyFrame (sym : string)
| LogNoDetails (sym : string)
| LogNoValidContracts (sym : string)
| LogNotEnoughData (sym : string)
| LogNoData
| LogAvgVol (avg_vol : float)
| LogVolCheck (is_volatile : bool) (threshold : float)
| LogPlacingOrders
| LogNoFrontMonth (sym : string)
| LogTrade (sym : string) (a : Action) (pos_size : Z) (latest_signal : Z)
    (front : string)
| LogNoTrades.

(** What a run does to the outside, in order. *)
Inductive Event :=
| Connect (port : Z) (clientId : Z)
| ReqHistoricalData (c : Contract)
| ReqContractDetails (c : Contract)
| PlaceOrder (c : Contract) (o : Order)
| Sleep (secs : Z)
| Disconnect
| Printed (l : LogLine).

(** A computation that appends to the trace and yields a value. *)
Definition IO (A : Type) : Type := (list Event * A)%type.

Definition ret {A} (a : A) : IO A := ([], a).

Definition bind {A B} (m : IO A) (k : A -> IO B) : IO B :=
  let r := k (snd m) in (fst m ++ fst r, snd r).

Definition emit (e : Event) : IO unit := ([e], tt).

Definition print (l : LogLine) : IO unit := emit (Printed l).

Declare Scope io_scope.
Delimit Scope io_scope with io.
Notation "x <- m ;; k" := (bind m (fun x => k))
  (at level 61, m at next level, right associativity) : io_scope.
Notation "m ;; k" := (bind m (fun _ => k))
  (at level 61, right associativity) : io_scope.
Local Open Scope io_scope.

(** The cycle summary of the specification: six counters.  The script
    builds no such value. *)
Record CycleSummary := mkCycleSummary {
  instruments_attempted : nat;
  fetch_failures : nat;
  insufficient_history_skips : nat;
  resolution_failures : nat;
  submission_failures : nat;
  submissions_succeeded : nat
}.

(* ================================================================= *)
(** ** 6. The functions of the script *)

(** [connect_ibkr(paper_trading, client_id)]. *)
Definition connect_ibkr (ib : IB) (paper_trading : bool) (client_id : Z)
  : IO (PyResult IB) :=
  let port := if paper_trading then 7497%Z else 7496%Z in
  emit (Connect port client_id) ;;
  if isConnected ib
  then print (LogConnected paper_trading port) ;; ret (Returned ib)
  else ret (Raised (ConnectionError "Failed to connect to IBKR.")).

(** [get_continuous_data(ib, symbol_info)]: the frame, or [None]. *)
Definition get_continuous_data (ib : IB) (symbol_info : SymbolInfo)
  : IO (option (list Bar)) :=
  let cont_fut :=
    ContFuture (symbol symbol_info) (exchange symbol_info)
      (currency symbol_info) in
  emit (ReqHistoricalData cont_fut) ;;
  match reqHistoricalData ib cont_fut with
  | Raised e =>
      print (LogFetchFailed (symbol symbol_info) e) ;; ret None
  | Returned [] =>
      print (LogNoBars (symbol symbol_info)) ;; ret None
  | Returned bars =>
      match attach_symbol (symbol symbol_info) bars with
      | [] => print (LogEmptyFrame (symbol symbol_info)) ;; ret None
      | df => ret (Some df)
      end
  end.

(** [get_front_month_contract(ib, symbol_info)]. *)
Definition get_front_month_contract (ib : IB) (symbol_info : SymbolInfo)
  : IO (option Contract) :=
  let undated :=
    Future (symbol symbol_info) (exchange symbol_info)
      (currency symbol_info) in
  emit (ReqContractDetails undated) ;;
  let details := reqContractDetails ib undated in
  match details with
  | [] => print (LogNoDetails (symbol symbol_info)) ;; ret None
  | _ =>
      let valid := valid_contracts details in
      match valid with
      | [] => print (LogNoValidContracts (symbol symbol_info)) ;; ret None
      | _ => ret (hd_error (sort_by_month valid))
      end
  end.

(** The details the session lists for an instrument. *)
Definition details_of (ib : IB) (symbol_info : SymbolInfo)
  : list ContractDetails :=
  reqContractDetails ib
    (Future (symbol symbol_info) (exchange symbol_info)
       (currency symbol_info)).

(** The contract [get_front_month_contract] returns, without its trace. *)
Definition front_contract_of (ib : IB) (symbol_info : SymbolInfo)
  : option Contract :=
  snd (get_front_month_contract ib symbol_info).

(** One value of [symbol_data_map]: the derived frame, its latest signal
    and its latest realized volatility. *)
Record SymbolData := mkSymbolData {
  sd_df : list Row;
  sd_signal : Z;
  sd_vol : float
}.

(** A Python [dict] keyed by symbol: entries in insertion order; assigning
    to a key already present replaces its value in place. *)
Definition Dict := list (string * SymbolData).

Fixpoint dict_set (k : string) (v : SymbolData) (d : Dict) : Dict :=
  match d with
  | [] => [(k, v)]
  | (k', v') :: rest =>
      if String.eqb k' k then (k, v) :: rest
      else (k', v') :: dict_set k v rest
  end.

(** [df.iloc[-1]]: the last row, when there is one. *)
Definition iloc_last (df : list Row) : option Row :=
  match df with
  | [] => None
  | r :: rest => Some (last rest r)
  end.

(** The body of the first loop of [run_mlm_strategy], for one instrument. *)
Definition fetch_step (ib : IB) (info : SymbolInfo) (symbol_data_map : Dict)
  : IO Dict :=
  df_cont <- get_continuous_data ib info ;;
  match df_cont with
  | None => ret symbol_data_map
  | Some [] => ret symbol_data_map
  | Some df_cont =>
      let df_ind := compute_indicators df_cont in
      match iloc_last df_ind with
      | None =>
          print (LogNotEnoughData (symbol info)) ;; ret symbol_data_map
      | Some latest =>
          ret (dict_set (symbol info)
                 (mkSymbolData df_ind (signal latest) (rolling_std_20 latest))
                 symbol_data_map)
      end
  end.

(** The first loop: [for info in mlm_universe]. *)
Fixpoint fetch_loop (ib : IB) (universe : list SymbolInfo)
  (symbol_data_map : Dict) : IO Dict :=
  match universe with
  | [] => ret symbol_data_map
  | info :: rest =>
      m <- fetch_step ib info symbol_data_map ;;
      fetch_loop ib rest m
  end.

(** The body of the order loop, for one item of [symbol_data_map]. *)
Definition order_step (universe : list SymbolInfo) (ib : IB)
  (item : string * SymbolData) : IO unit :=
  let sym := fst item in
  let latest_signal := sd_signal (snd item) in
  match find (fun x => String.eqb (symbol x) sym) universe with
  | None => ret tt
  | Some symbol_info =>
      front_contract <- get_front_month_contract ib symbol_info ;;
      match front_contract with
      | None => print (LogNoFrontMonth sym)
      | Some front_contract =>
          let pos_size := CONTRACT_SIZE in
          let action := if (latest_signal =? 1)%Z then BUY else SELL in
          let order := MarketOrder action pos_size in
          emit (PlaceOrder front_contract order) ;;
          print (LogTrade sym action pos_size latest_signal
                   (lastTradeDateOrContractMonth front_contract))
      end
  end.

(** The order loop: [for sym, data in symbol_data_map.items()]. *)
Fixpoint order_loop (universe : list SymbolInfo) (ib : IB)
  (items : Dict) : IO unit :=
  match items with
  | [] => ret tt
  | item :: rest =>
      order_step universe ib item ;; order_loop universe ib rest
  end.

(** [avg_vol]: the mean of the [vol] entries of the map. *)
Definition avg_vol_of (symbol_data_map : Dict) : float :=
  let all_vols := map (fun kv => sd_vol (snd kv)) symbol_data_map in
  np_mean all_vols.

(** The two gates. *)
Definition is_volatile_of (symbol_data_map : Dict) : bool :=
  fgt (avg_vol_of symbol_data_map) VOL_THRESHOLD.

Definition is_rebalance_day_of (w : World) : bool := (day (today w) =? 25)%Z.

(** [run_mlm_strategy(paper_trading)] after the session is connected. *)
Definition run_connected (universe : list SymbolInfo) (w : World) (ib : IB)
  : IO (PyResult (option CycleSummary)) :=
  symbol_data_map <- fetch_loop ib universe [] ;;
  match symbol_data_map with
  | [] =>
      print LogNoData ;;
      emit Disconnect ;;
      ret (Returned None)
  | _ =>
      let avg_vol := avg_vol_of symbol_data_map in
      print (LogAvgVol avg_vol) ;;
      let is_volatile := fgt avg_vol VOL_THRESHOLD in
      print (LogVolCheck is_volatile VOL_THRESHOLD) ;;
      let is_rebalance_day := (day (today w) =? 25)%Z in
      (if is_rebalance_day && is_volatile
       then
         print LogPlacingOrders ;;
         order_loop universe ib symbol_data_map ;;
         emit (Sleep 5)
       else print LogNoTrades) ;;
      emit Disconnect ;;
      ret (Returned None)
  end.

(** [run_mlm_strategy(paper_trading)] over a universe: an exception of
    [connect_ibkr] leaves the function at once. *)
Definition run_mlm_strategy_on (universe : list SymbolInfo) (w : World)
  (paper_trading : bool) : IO (PyResult (option CycleSummary)) :=
  c <- connect_ibkr (session w) paper_trading 9999 ;;
  match c with
  | Raised e => ret (Raised e)
  | Returned ib => run_connected universe w ib
  end.

(** [run_mlm_strategy(paper_trading)]: the module's universe. *)
Definition run_mlm_strategy (w : World) (paper_trading : bool)
  : IO (PyResult (option CycleSummary)) :=
  run_mlm_strategy_on mlm_universe w paper_trading.

(** The symbols of a universe are pairwise distinct. *)
Fixpoint distinct (l : list string) : bool :=
  match l with
  | [] => true
  | x :: rest => negb (existsb (String.eqb x) rest) && distinct rest
  end.

(** The orders of a trace, in order. *)
Definition orders_of (tr : list Event) : list (Contract * Order) :=
  flat_map (fun e => match e with PlaceOrder c o => [(c, o)] | _ => [] end) tr.

(* ================================================================= *)
(** ** 7. Sample data *)

(** The date of the [i]-th bar of a sample series: thirty days a month. *)
Definition sample_date (i : nat) : Date :=
  let z := Z.of_nat i in
  mkDate (2023 + z / 360) (1 + (z / 30) mod 12) (1 + z mod 30).

(** A bar whose price columns all hold [c]. *)
Definition sample_bar (d : Date) (c : float) : BarData :=
  mkBarData d c c c c 1000%float c 10.

(** [n] bars at the constant close [c]. *)
Definition flat_series (c : float) (n : nat) : list BarData :=
  map (fun i => sample_bar (sample_date i) c) (seq 0 n).

(** [n] bars whose close alternates between 100 and 110. *)
Definition zigzag_series (n : nat) : list BarData :=
  map (fun i =>
         sample_bar (sample_date i)
           (if Nat.even i then 100%float else 110%float))
      (seq 0 n).

(** [n] bars that all carry the same date. *)
Definition same_day_series (n : nat) : list BarData :=
  map (fun i =>
         sample_bar (sample_date 0)
           (if Nat.even i then 100%float else 110%float))
      (seq 0 n).

Definition listed (sym token : string) (id : Z) : ContractDetails :=
  mkContractDetails (mkContract "FUT" id sym token "CBOT" "USD") sym.

(** The three listings of the specification's example. *)
Definition sample_details (sym : string) : list ContractDetails :=
  [ listed sym "202403" 1; listed sym "202406" 2; listed sym "202312" 3 ].

Definition instrument (sym : string) : SymbolInfo :=
  mkSymbolInfo sym "CBOT" "USD" "Grains".

Definition four_instruments : list SymbolInfo :=
  [ instrument "A"; instrument "B"; instrument "C"; instrument "D" ].

(** A session where the request for ["B"] raises and every other
    instrument has 250 volatile bars and the three sample listings. *)
Definition one_bad_feed : IB :=
  mkIB true
    (fun c =>
       if String.eqb (c_symbol c) "B"
       then Raised (RequestError "no market data")
       else Returned (zigzag_series 250))
    (fun c => sample_details (c_symbol c)).

(** A session where every instrument has 250 bars at a constant close. *)
Definition quiet_session : IB :=
  mkIB true
    (fun _ => Returned (flat_series 100%float 250))
    (fun c => sample_details (c_symbol c)).

(** A session without any bars. *)
Definition silent_session : IB :=
  mkIB true (fun _ => Returned []) (fun c => sample_details (c_symbol c)).

Definition on_day (d : Z) (ib : IB) : World := mkWorld ib (mkDate 2024 3 d).

(** A session that lists one contract per instrument, under [token]. *)
Definition single_listing (token : string) : IB :=
  mkIB true (fun _ => Returned (zigzag_series 250))
    (fun c => [listed (c_symbol c) token 7]).

(** A session whose every series carries one and the same date. *)
Definition same_day_session : IB :=
  mkIB true (fun _ => Returned (same_day_series 250))
    (fun c => sample_details (c_symbol c)).

(* ================================================================= *)
(** ** 8. Observations used in the statements *)

(** What the first loop stores for one instrument: the entry of
    [symbol_data_map], or nothing when the instrument is skipped. *)
Definition snapshot_of (ib : IB) (info : SymbolInfo) : option SymbolData :=
  match snd (get_continuous_data ib info) with
  | Some (b :: df_cont) =>
      let df_ind := compute_indicators (b :: df_cont) in
      match iloc_last df_ind with
      | Some latest =>
          Some (mkSymbolData df_ind (signal latest) (rolling_std_20 latest))
      | None => None
      end
  | _ => None
  end.

(** The map the first loop builds from an empty one. *)
Definition fetched_map (universe : list SymbolInfo) (ib : IB) : Dict :=
  snd (fetch_loop ib universe []).

(** The entry an instrument contributes to the map. *)
Definition entry_of (ib : IB) (info : SymbolInfo)
  : list (string * SymbolData) :=
  match snapshot_of ib info with
  | Some d => [(symbol info, d)]
  | None => []
  end.


Definition is_disconnect (e : Event) : bool :=
  match e with Disconnect => true | _ => false end.

(** Events of the first loop. *)
Definition fetch_event (e : Event) : Prop :=
  match e with
  | ReqHistoricalData _ => True
  | Printed (LogFetchFailed _ _) | Printed (LogNoBars _)
  | Printed (LogEmptyFrame _) | Printed (LogNotEnoughData _) => True
  | _ => False
  end.

(** Events of the order loop. *)
Definition order_event (e : Event) : Prop :=
  match e with
  | ReqContractDetails _ | PlaceOrder _ _ => True
  | Printed (LogNoDetails _) | Printed (LogNoValidContracts _)
  | Printed (LogNoFrontMonth _) | Printed (LogTrade _ _ _ _ _) => True
  | _ => False
  end.

(** The contract month of a token of the form [YYYYMM...]: the year and a
    month between 1 and 12, when its first six characters are digits. *)
Definition digit_of (a : ascii) : option Z :=
  let n := Z.of_nat (nat_of_ascii a) in
  if ((48 <=? n) && (n <=? 57))%Z then Some (n - 48)%Z else None.

Fixpoint number_of (acc : Z) (s : string) : option Z :=
  match s with
  | EmptyString => Some acc
  | String a rest =>
      match digit_of a with
      | Some d => number_of (10 * acc + d)%Z rest
      | None => None
      end
  end.

Definition token_month (token : string) : option (Z * Z) :=
  if 6 <=? String.length token then
    match number_of 0 (substring 0 4 token),
          number_of 0 (substring 4 2 token) with
    | Some y, Some m =>
        if ((1 <=? m) && (m <=? 12))%Z then Some (y, m) else None
    | _, _ => None
    end
  else None.

(** The contract month lies before the month of [d]. *)
Definition already_past (d : Date) (token : string) : bool :=
  match token_month token with
  | Some (y, m) => ((y <? year d) || ((y =? year d) && (m <? month d)))%Z
  | None => false
  end.

Abbreviation token := lastTradeDateOrContractMonth.

(** [c] is the first of the entries of [l] with the smallest token. *)
Definition first_smallest (l : list Contract) (c : Contract) : Prop :=
  exists before after,
    l = before ++ c :: after /\
    (forall y, In y before -> String.ltb (token c) (token y) = true) /\
    (forall y, In y after -> String.ltb (token y) (token c) = false).

(** [a] may stand before [b]: the token of [b] is not smaller. *)
Definition month_le (a b : Contract) : Prop :=
  String.ltb (token b) (token a) = false.

(** The row of a 200-bar series at the constant close 100: close and
    moving average tie. *)
Definition tie_row : Row :=
  mkRow 199 (mkBar (sample_bar (sample_date 199) 100%float) "A")
    0%float 0%float 100%float (-1)%Z.

(** The claim C6 as it is worded: a row is emitted only where at least
    [max vw mw] observations come before it. *)
Definition rows_have_full_history_before (vw mw : nat) (df : list Bar)
  : bool :=
  forallb (fun r => Nat.max vw mw <=? idx r)
    (compute_indicators_with vw mw df).

(** What happens after the first loop, as a trace. *)
Definition gate_trace (universe : list SymbolInfo) (w : World) (ib : IB)
  (m : Dict) : list Event :=
  match m with
  | [] => [Printed LogNoData; Disconnect]
  | _ =>
      [Printed (LogAvgVol (avg_vol_of m));
       Printed (LogVolCheck (is_volatile_of m) VOL_THRESHOLD)]
      ++ (if is_rebalance_day_of w && is_volatile_of m
          then [Printed LogPlacingOrders]
               ++ fst (order_loop universe ib m) ++ [Sleep 5]
          else [Printed LogNoTrades])
      ++ [Disconnect]
  end.

Definition connect_trace (paper_trading : bool) : list Event :=
  let port := if paper_trading then 7497%Z else 7496%Z in
  [Connect port 9999; Printed (LogConnected paper_trading port)].


(** The contracts the script asks the session about for an instrument. *)
Definition cont_fut_of (info : SymbolInfo) : Contract :=
  ContFuture (symbol info) (exchange info) (currency info).

Definition undated_of (info : SymbolInfo) : Contract :=
  Future (symbol info) (exchange info) (currency info).

(** The same bar under another date. *)
Definition redate_data (f : Date -> Date) (b : BarData) : BarData :=
  mkBarData (f (date b)) (open_ b) (high b) (low b) (close b) (volume b)
    (average b) (barCount b).

Definition redate (f : Date -> Date) (b : Bar) : Bar :=
  mkBar (redate_data f (data b)) (bar_symbol b).

Definition redate_row (f : Date -> Date) (r : Row) : Row :=
  mkRow (idx r) (redate f (bar r)) (return_ r) (rolling_std_20 r) (MA200 r)
    (signal r).

(* ================================================================= *)
(** ** 9. Further observations of a run *)

(** The contracts whose bars a trace asks for, in order. *)
Definition hist_requests (tr : list Event) : list Contract :=
  flat_map
    (fun e => match e with ReqHistoricalData c => [c] | _ => [] end) tr.

(** The undated futures whose details a trace asks for, in order. *)
Definition detail_requests (tr : list Event) : list Contract :=
  flat_map
    (fun e => match e with ReqContractDetails c => [c] | _ => [] end) tr.

Definition is_sleep (e : Event) : bool :=
  match e with Sleep _ => true | _ => false end.

Definition is_empty_frame_line (e : Event) : bool :=
  match e with Printed (LogEmptyFrame _) => true | _ => false end.

(** [d[k]] on a Python [dict]: the value under the key, when present. *)
Fixpoint dict_get (k : string) (d : Dict) : option SymbolData :=
  match d with
  | [] => None
  | (k', v') :: rest => if String.eqb k' k then Some v' else dict_get k rest
  end.

(** [all_vols] as the script writes it: one lookup per key of the map. *)
Definition all_vols_by_key (symbol_data_map : Dict) : list (option float) :=
  map (fun sym => option_map sd_vol (dict_get sym symbol_data_map))
    (map fst symbol_data_map).

(** The index label and the four derived columns of a row. *)
Definition derived (r : Row) : nat * float * float * float * Z :=
  (idx r, return_ r, rolling_std_20 r, MA200 r, signal r).

(** The contracts of a list that carry the token [t], in order. *)
Definition with_token (t : string) (l : list Contract) : list Contract :=
  filter (fun c => String.eqb (token c) t) l.

(** A session that answers every request with [bars] and [details]. *)
Definition constant_session (bars : list BarData)
  (details : list ContractDetails) : IB :=
  mkIB true (fun _ => Returned bars) (fun _ => details).


(** None of the columns of a bar other than its close is NaN. *)
Definition other_columns_clean (b : Bar) : bool :=
  negb (existsb PrimFloat.is_nan
          [open_ (data b); high (data b); low (data b); volume (data b);
           average (data b)]).

(** The order the order loop places for one item of the map, whatever the
    universe: none when the symbol is not found or no contract is. *)
Definition order_for (universe : list SymbolInfo) (ib : IB)
  (item : string * SymbolData) : list (Contract * Order) :=
  match find (fun x => String.eqb (symbol x) (fst item)) universe with
  | Some info =>
      match front_contract_of ib info with
      | Some c =>
          [(c, MarketOrder (if (sd_signal (snd item) =? 1)%Z
                            then BUY else SELL) CONTRACT_SIZE)]
      | None => []
      end
  | None => []
  end.

(** Both gates of a run. *)
Definition gates_open (w : World) (m : Dict) : bool :=
  is_rebalance_day_of w && is_volatile_of m.

(** The index label, the derived columns and the close of a row. *)
Definition key_of (r : Row) : nat * float * float * float * Z * float :=
  (derived r, row_close r).

(* ================================================================= *)
(** * Properties *)

(** ** Binary64 facts *)

Section Binary64.

Lemma new_location_zero (n : Z) : new_location n 0 = loc_Exact.
Proof.
  unfold new_location, new_location_even, new_location_odd.
  destruct (Z.even n); reflexivity.
Qed.

Lemma div_eucl_shifted_self (m : positive) :
  Z.div_eucl (Z.shiftl (Z.pos m) 53) (Z.pos m) = (2 ^ 53, 0)%Z.
Proof.
  rewrite Z.shiftl_mul_pow2 by lia. rewrite Z.mul_comm.
  pose proof (Z.div_mul (2 ^ 53) (Z.pos m) ltac:(lia)) as Hq.
  pose proof (Z.mod_mul (2 ^ 53) (Z.pos m) ltac:(lia)) as Hr.
  unfold Z.div, Z.modulo in Hq, Hr.
  destruct (Z.div_eucl (2 ^ 53 * Z.pos m) (Z.pos m)) as [q r].
  now subst.
Qed.

Lemma SFdiv_self (s : bool) (m : positive) (e : Z) :
  SF64div (S754_finite s m e) (S754_finite s m e) = Prim2SF 1%float.
Proof.
  unfold SF64div, SFdiv, SFdiv_core_binary.
  replace (Zdigits2 (Z.pos m) + e - (Zdigits2 (Z.pos m) + e))%Z with 0%Z
    by lia.
  rewrite Z.sub_diag.
  change (Z.min (fexp prec emax 0) 0) with (-53)%Z.
  change (0 - -53)%Z with 53%Z. cbv iota beta.
  rewrite div_eucl_shifted_self, new_location_zero.
  destruct s; reflexivity.
Qed.

(** A finite non-zero float divided by itself is exactly one. *)
Lemma div_self (x : float) :
  finite_nonzero x = true -> (x / x)%float = 1%float.
Proof.
  unfold finite_nonzero. intros H. apply Prim2SF_inj.
  rewrite FloatAxioms.div_spec.
  destruct (Prim2SF x); try discriminate. apply SFdiv_self.
Qed.

(** Zero over a positive float is zero. *)
Lemma zero_div_positive (y : float) :
  positive_float y = true -> (0 / y)%float = 0%float.
Proof.
  unfold positive_float. intros H. apply Prim2SF_inj.
  rewrite FloatAxioms.div_spec.
  destruct (Prim2SF y) as [ | | |[|] m e]; try discriminate. reflexivity.
Qed.

Lemma digits2_pos_bounds (p : positive) :
  (2 ^ (Z.pos (digits2_pos p) - 1) <= Z.pos p
   < 2 ^ Z.pos (digits2_pos p))%Z.
Proof.
  assert (Hstep : forall d : positive,
             (2 ^ Z.pos d = 2 * 2 ^ (Z.pos d - 1))%Z).
  { intros d. rewrite <- Z.pow_succ_r by lia. f_equal. lia. }
  induction p as [p IH | p IH |]; cbn [digits2_pos].
  - rewrite Pos2Z.inj_succ.
    replace (Z.succ (Z.pos (digits2_pos p)) - 1)%Z
      with (Z.pos (digits2_pos p)) by lia.
    rewrite Z.pow_succ_r by lia. specialize (Hstep (digits2_pos p)). lia.
  - rewrite Pos2Z.inj_succ.
    replace (Z.succ (Z.pos (digits2_pos p)) - 1)%Z
      with (Z.pos (digits2_pos p)) by lia.
    rewrite Z.pow_succ_r by lia. specialize (Hstep (digits2_pos p)). lia.
  - cbn. lia.
Qed.

Lemma digits2_pos_le (p : positive) (d : Z) :
  (0 <= d)%Z -> (Z.pos p < 2 ^ d)%Z -> (Z.pos (digits2_pos p) <= d)%Z.
Proof.
  intros Hd H. pose proof (digits2_pos_bounds p) as [Hlo _].
  destruct (Z_le_gt_dec (Z.pos (digits2_pos p)) d) as [|Hgt];
    [assumption|exfalso].
  assert (2 ^ d <= 2 ^ (Z.pos (digits2_pos p) - 1))%Z
    by (apply Z.pow_le_mono_r; lia).
  lia.
Qed.

Lemma digits2_pos_succ (q : positive) :
  (Z.pos (digits2_pos (Pos.succ q)) <= Z.pos (digits2_pos q) + 1)%Z.
Proof.
  pose proof (digits2_pos_bounds q) as [_ Hhi].
  apply digits2_pos_le; [lia|]. rewrite Pos2Z.inj_succ.
  rewrite Z.pow_add_r by lia. change (2 ^ 1)%Z with 2%Z. lia.
Qed.

Lemma digits2_pos_iter_xO (k p : positive) :
  digits2_pos (Pos.iter xO p k) = (digits2_pos p + k)%positive.
Proof.
  revert p. induction k using Pos.peano_ind; intros p.
  - cbn. lia.
  - rewrite Pos.iter_succ. cbn [digits2_pos]. rewrite IHk. lia.
Qed.

(** One shift to the right of a mantissa of two digits or more. *)
Lemma shr_1_positive (mrs : shr_record) (q : positive) :
  shr_m mrs = Z.pos q -> (1 < Z.pos (digits2_pos q))%Z ->
  exists q', shr_m (shr_1 mrs) = Z.pos q' /\
             (Z.pos (digits2_pos q') = Z.pos (digits2_pos q) - 1)%Z.
Proof.
  destruct mrs as [m r s]. cbn [shr_m]. intros -> Hd.
  destruct q as [p|p|]; cbn [shr_1 shr_m digits2_pos] in *.
  - exists p. split; [reflexivity|lia].
  - exists p. split; [reflexivity|lia].
  - lia.
Qed.

(** [k] shifts to the right of a mantissa of more than [k] digits. *)
Lemma iter_shr_1_positive (k : positive) :
  forall (mrs : shr_record) (q : positive),
    shr_m mrs = Z.pos q -> (Z.pos k < Z.pos (digits2_pos q))%Z ->
    exists q', shr_m (iter_pos shr_1 k mrs) = Z.pos q' /\
               (Z.pos (digits2_pos q') = Z.pos (digits2_pos q) - Z.pos k)%Z.
Proof.
  induction k as [k IH|k IH|]; intros mrs q Hm Hd; cbn [iter_pos].
  - destruct (shr_1_positive mrs q Hm ltac:(lia)) as (q1 & H1 & D1).
    destruct (IH _ q1 H1 ltac:(lia)) as (q2 & H2 & D2).
    destruct (IH _ q2 H2 ltac:(lia)) as (q3 & H3 & D3).
    exists q3. split; [exact H3|lia].
  - destruct (IH _ q Hm ltac:(lia)) as (q2 & H2 & D2).
    destruct (IH _ q2 H2 ltac:(lia)) as (q3 & H3 & D3).
    exists q3. split; [exact H3|lia].
  - apply shr_1_positive; [exact Hm|lia].
Qed.

Lemma shr_fexp_positive (q : positive) (e : Z) (l : location) :
  (53 <= Z.pos (digits2_pos q))%Z -> (-1021 <= e)%Z ->
  exists q', shr_m (fst (shr_fexp prec emax (Z.pos q) e l)) = Z.pos q' /\
             Z.pos (digits2_pos q') = 53%Z /\
             snd (shr_fexp prec emax (Z.pos q) e l)
             = (e + (Z.pos (digits2_pos q) - 53))%Z.
Proof.
  intros Hd He. unfold shr_fexp. cbn [Zdigits2].
  assert (Hf : (fexp prec emax (Z.pos (digits2_pos q) + e) - e
                = Z.pos (digits2_pos q) - 53)%Z).
  { unfold fexp, emin, prec, emax. lia. }
  rewrite Hf. unfold shr.
  destruct (Z.pos (digits2_pos q) - 53)%Z as [|k|k] eqn:E; try lia.
  - exists q. cbn [fst snd]. repeat split; try lia.
    destruct l as [|[| |]]; reflexivity.
  - cbn [fst snd].
    destruct (iter_shr_1_positive k (shr_record_of_loc (Z.pos q) l) q)
      as (q' & Hq & Dq).
    + destruct l as [|[| |]]; reflexivity.
    + lia.
    + exists q'. repeat split; [exact Hq|lia].
Qed.

Lemma round_nearest_even_positive (q : positive) (l : location) :
  exists q1, round_nearest_even (Z.pos q) l = Z.pos q1 /\
             (Z.pos (digits2_pos q) <= Z.pos (digits2_pos q1)
              <= Z.pos (digits2_pos q) + 1)%Z.
Proof.
  assert (Hsucc : exists q1, (Z.pos q + 1 = Z.pos q1)%Z /\
             (Z.pos (digits2_pos q) <= Z.pos (digits2_pos q1)
              <= Z.pos (digits2_pos q) + 1)%Z).
  { exists (Pos.succ q). split; [lia|]. split; [|apply digits2_pos_succ].
    pose proof (digits2_pos_bounds q) as [Hlo _].
    pose proof (digits2_pos_bounds (Pos.succ q)) as [_ Hhi].
    destruct (Z_le_gt_dec (Z.pos (digits2_pos q))
                (Z.pos (digits2_pos (Pos.succ q)))) as [|Hgt];
      [assumption|exfalso].
    assert (2 ^ Z.pos (digits2_pos (Pos.succ q))
            <= 2 ^ (Z.pos (digits2_pos q) - 1))%Z
      by (apply Z.pow_le_mono_r; lia).
    lia. }
  assert (Hsame : exists q1, Z.pos q = Z.pos q1 /\
             (Z.pos (digits2_pos q) <= Z.pos (digits2_pos q1)
              <= Z.pos (digits2_pos q) + 1)%Z).
  { exists q. split; [reflexivity|lia]. }
  unfold round_nearest_even. destruct l as [|[| |]]; try assumption.
  destruct (Z.even (Z.pos q)); assumption.
Qed.

(** Rounding a positive mantissa of 53 digits or more, in range. *)
Lemma binary_round_aux_positive (q : positive) (e : Z) (l : location) :
  (53 <= Z.pos (digits2_pos q))%Z -> (-1021 <= e)%Z ->
  (e + (Z.pos (digits2_pos q) - 53) < 971)%Z ->
  exists m e',
    binary_round_aux prec emax false (Z.pos q) e l = S754_finite false m e'.
Proof.
  intros Hd He Hmax. unfold binary_round_aux.
  destruct (shr_fexp_positive q e l Hd He) as (q' & Hq' & Dq' & Eq').
  destruct (shr_fexp prec emax (Z.pos q) e l) as [mrs' e1].
  cbn [fst snd] in Hq', Eq'. rewrite Hq'.
  destruct (round_nearest_even_positive q' (loc_of_shr_record mrs'))
    as (q1 & -> & Dq1).
  destruct (shr_fexp_positive q1 e1 loc_Exact ltac:(lia) ltac:(lia))
    as (q2 & Hq2 & Dq2 & Eq2).
  destruct (shr_fexp prec emax (Z.pos q1) e1 loc_Exact) as [mrs'' e2].
  cbn [fst snd] in Hq2, Eq2. rewrite Hq2.
  replace (e2 <=? emax - prec)%Z with true.
  - now exists q2, e2.
  - symmetry. apply Z.leb_le. unfold emax, prec. lia.
Qed.

Lemma binary_normalize_positive (p : positive) :
  (Z.pos p < 2 ^ 63)%Z ->
  exists m e,
    binary_normalize prec emax (Z.pos p) 0 false = S754_finite false m e.
Proof.
  intros Hp. pose proof (digits2_pos_le p 63 ltac:(lia) Hp) as Hd.
  unfold binary_normalize, binary_round, shl_align.
  assert (fexp prec emax (Z.pos (digits2_pos p) + 0) - 0
          = Z.pos (digits2_pos p) - 53)%Z as ->.
  { unfold fexp, emin, prec, emax. lia. }
  destruct (Z.pos (digits2_pos p) - 53)%Z as [|q|q] eqn:E.
  - apply binary_round_aux_positive; lia.
  - apply binary_round_aux_positive; lia.
  - assert (fexp prec emax (Z.pos (digits2_pos p) + 0) = Z.neg q) as ->.
    { unfold fexp, emin, prec, emax. lia. }
    apply binary_round_aux_positive; rewrite ?digits2_pos_iter_xO; lia.
Qed.

(** A count between 1 and 2^63, a [Py_ssize_t], casts to a positive
    float. *)
Lemma float_of_nat_positive (n : nat) :
  0 < n -> (Z.of_nat n < 2 ^ 63)%Z ->
  positive_float (float_of_nat n) = true.
Proof.
  intros Hn Hb. unfold positive_float, float_of_nat.
  rewrite of_uint63_spec, Uint63.of_Z_spec.
  rewrite Z.mod_small by (change wB with (2 ^ 63)%Z; lia).
  destruct (Z.of_nat n) as [|p|p] eqn:E; try lia.
  destruct (binary_normalize_positive p Hb) as (m & e & ->). reflexivity.
Qed.



End Binary64.

(** ** Frames and rolling windows *)

Section Frames.

Lemma in_combine_seq {A} (l : list A) (s i : nat) (a : A) :
  In (i, a) (combine (seq s (length l)) l) <->
  s <= i /\ nth_error l (i - s) = Some a.
Proof.
  revert s. induction l as [|x l IH]; intros s; cbn [length seq combine].
  - split; [intros []|]. intros [_ H]. destruct (i - s); discriminate.
  - cbn [In]. rewrite IH. split.
    + intros [H|[Hle H]].
      * inversion H; subst. split; [lia|]. now rewrite Nat.sub_diag.
      * split; [lia|]. replace (i - s) with (S (i - S s)) by lia. exact H.
    + intros [Hle H]. destruct (i - s) as [|k] eqn:E.
      * left. cbn in H. inversion H. f_equal. lia.
      * right. split; [lia|]. cbn in H.
        replace (i - S s) with k by lia. exact H.
Qed.

Lemma nth_map_seq {A} (f : nat -> A) (n i : nat) (d : A) :
  i < n -> nth i (map f (seq 0 n)) d = f i.
Proof.
  intros H. rewrite (nth_indep _ d (f 0)) by (now rewrite length_map, length_seq).
  rewrite map_nth. now rewrite seq_nth.
Qed.

Lemma length_pct_change (xs : list float) :
  length (pct_change xs) = length xs.
Proof.
  destruct xs as [|x later]; [reflexivity|]. cbn [pct_change length].
  rewrite length_map, length_combine. cbn [length]. lia.
Qed.

Lemma length_rolling (w : nat) agg (xs : list float) :
  length (rolling w agg xs) = length xs.
Proof. unfold rolling. now rewrite length_map, length_seq. Qed.

Lemma nth_rolling (w : nat) agg (xs : list float) (i : nat) :
  i < length xs ->
  nth i (rolling w agg xs) PrimFloat.nan = rolling_at w agg xs i.
Proof. intros H. unfold rolling. now apply nth_map_seq. Qed.

Lemma nth_np_where_gt (a b : list float) (i : nat) :
  i < length a -> i < length b ->
  nth i (np_where_gt a b) (-1)%Z
  = if fgt (nth i a PrimFloat.nan) (nth i b PrimFloat.nan)
    then 1%Z else (-1)%Z.
Proof.
  unfold np_where_gt. revert b i.
  induction a as [|x a IH]; intros [|y b] [|i] Ha Hb; cbn in *; try lia.
  apply IH; lia.
Qed.

(** Before the window is full the rolling value is missing. *)
Lemma rolling_at_short (w : nat) agg (xs : list float) (i : nat) :
  i + 1 < w -> rolling_at w agg xs i = PrimFloat.nan.
Proof.
  intros H. unfold rolling_at, window_at.
  destruct (Nat.leb_spec w (i + 1)); [lia|reflexivity].
Qed.

(** A window that reaches back to the first return holds its NaN. *)
Lemma rolling_at_returns_short (w : nat) agg (closes : list float) (i : nat) :
  i < length closes -> i < w ->
  rolling_at w agg (pct_change closes) i = PrimFloat.nan.
Proof.
  intros Hi Hw. destruct (Nat.eq_dec (i + 1) w) as [E|E].
  - unfold rolling_at, window_at. subst w. rewrite Nat.leb_refl.
    rewrite Nat.sub_diag. cbn [skipn].
    destruct closes as [|c later]; [cbn in Hi; lia|].
    cbn [pct_change]. rewrite Nat.add_1_r. cbn [firstn forallb].
    reflexivity.
  - apply rolling_at_short. lia.
Qed.

Ltac frame_length :=
  rewrite ?length_rolling, ?length_pct_change, ?length_map; assumption.

(** The derived columns read at an index label of the frame. *)
Lemma columns_at (vw mw : nat) (df : list Bar) (i : nat) (b : Bar) :
  nth_error df i = Some b ->
  let closes := map (fun b => close (data b)) df in
  nth i (rolling_std vw (pct_change closes)) PrimFloat.nan
  = rolling_at vw sample_std (pct_change closes) i /\
  nth i (rolling_mean mw closes) PrimFloat.nan
  = rolling_at mw np_mean closes i /\
  nth i (np_where_gt closes (rolling_mean mw closes)) (-1)%Z
  = (if fgt (close (data b)) (rolling_at mw np_mean closes i)
     then 1%Z else (-1)%Z).
Proof.
  intros Hn closes.
  assert (Hlt : i < length df) by (apply nth_error_Some; congruence).
  assert (Hc : nth i closes PrimFloat.nan = close (data b)).
  { unfold closes.
    rewrite (nth_indep _ PrimFloat.nan (close (data b))) by frame_length.
    rewrite (map_nth (fun b => close (data b))).
    now rewrite (nth_error_nth _ _ _ Hn). }
  unfold rolling_std, rolling_mean. repeat split.
  - apply nth_rolling. unfold closes. frame_length.
  - apply nth_rolling. unfold closes. frame_length.
  - rewrite nth_np_where_gt by (unfold closes; frame_length).
    rewrite Hc. rewrite nth_rolling by (unfold closes; frame_length).
    reflexivity.
Qed.

(** The rows before [dropna]: one per input row, holding the column values
    at its index label. *)
Lemma in_with_indicators (vw mw : nat) (df : list Bar) (r : Row) :
  In r (with_indicators vw mw df) <->
  exists i b,
    nth_error df i = Some b /\
    let closes := map (fun b => close (data b)) df in
    r = mkRow i b
          (nth i (pct_change closes) PrimFloat.nan)
          (rolling_at vw sample_std (pct_change closes) i)
          (rolling_at mw np_mean closes i)
          (if fgt (close (data b)) (rolling_at mw np_mean closes i)
           then 1%Z else (-1)%Z).
Proof.
  unfold with_indicators. rewrite in_map_iff. split.
  - intros ([i b] & <- & Hin). apply in_combine_seq in Hin.
    destruct Hin as [_ Hn]. rewrite Nat.sub_0_r in Hn.
    exists i, b. split; [exact Hn|]. cbn [fst snd].
    destruct (columns_at vw mw df i b Hn) as (-> & -> & ->). reflexivity.
  - intros (i & b & Hn & ->). exists (i, b). split.
    + cbn [fst snd].
      destruct (columns_at vw mw df i b Hn) as (-> & -> & ->). reflexivity.
    + apply in_combine_seq. rewrite Nat.sub_0_r. split; [lia|exact Hn].
Qed.

(** The rows [compute_indicators] returns are those without a NaN. *)
Lemma in_compute_indicators_with (vw mw : nat) (df : list Bar) (r : Row) :
  In r (compute_indicators_with vw mw df) <->
  In r (with_indicators vw mw df) /\ row_has_nan r = false.
Proof.
  unfold compute_indicators_with, dropna. rewrite filter_In.
  now rewrite negb_true_iff.
Qed.

Lemma row_has_nan_false (r : Row) :
  row_has_nan r = false ->
  PrimFloat.is_nan (return_ r) = false /\
  PrimFloat.is_nan (rolling_std_20 r) = false /\
  PrimFloat.is_nan (MA200 r) = false.
Proof.
  unfold row_has_nan. cbn [existsb]. rewrite !orb_false_iff. tauto.
Qed.

End Frames.

(** ** Constant series *)

Section ConstantSeries.

Lemma map_constant {A B} (f : A -> B) (c : B) (l : list A) :
  (forall a, In a l -> f a = c) -> map f l = repeat c (length l).
Proof.
  induction l as [|a l IH]; intros H; [reflexivity|]. cbn.
  rewrite (H a (or_introl eq_refl)). f_equal. apply IH.
  intros b Hb. apply H. now right.
Qed.

Lemma combine_repeat {A} (a b : A) (n : nat) :
  combine (repeat a (S n)) (repeat b n) = repeat (a, b) n.
Proof. induction n as [|n IH]; [reflexivity|]. cbn in *. now rewrite IH. Qed.

Lemma map_repeat {A B} (f : A -> B) (a : A) (n : nat) :
  map f (repeat a n) = repeat (f a) n.
Proof. induction n as [|n IH]; [reflexivity|]. cbn. now rewrite IH. Qed.

Lemma skipn_repeat {A} (a : A) (k n : nat) :
  skipn k (repeat a n) = repeat a (n - k).
Proof.
  revert n. induction k as [|k IH]; intros [|n]; cbn; try reflexivity.
  apply IH.
Qed.

Lemma firstn_repeat {A} (a : A) (k n : nat) :
  k <= n -> firstn k (repeat a n) = repeat a k.
Proof.
  revert n. induction k as [|k IH]; intros [|n] H; cbn; try reflexivity;
    try lia.
  f_equal. apply IH. lia.
Qed.

(** The returns of a constant, finite, non-zero close: NaN, then zeros. *)
Lemma pct_change_constant (c : float) (n : nat) :
  finite_nonzero c = true ->
  pct_change (repeat c (S n)) = PrimFloat.nan :: repeat 0%float n.
Proof.
  intros Hc. unfold pct_change. cbn [repeat]. f_equal.
  change (c :: repeat c n) with (repeat c (S n)).
  rewrite combine_repeat, map_repeat. cbn [fst snd].
  now rewrite (div_self c Hc).
Qed.

Lemma fsum_zeros (n : nat) : fsum (repeat 0%float n) = 0%float.
Proof.
  unfold fsum. induction n as [|n IH]; [reflexivity|]. cbn [repeat fold_left].
  exact IH.
Qed.

Lemma forallb_not_nan_zeros (n : nat) :
  forallb not_nan (repeat 0%float n) = true.
Proof. induction n as [|n IH]; [reflexivity|]. cbn. exact IH. Qed.

(** The sample deviation of [w >= 2] zeros is zero. *)
Lemma sample_std_zeros (w : nat) :
  2 <= w -> (Z.of_nat w < 2 ^ 63)%Z ->
  sample_std (repeat 0%float w) = 0%float.
Proof.
  intros Hw Hb. unfold sample_std, np_mean.
  rewrite repeat_length, fsum_zeros.
  rewrite (zero_div_positive (float_of_nat w))
    by (apply float_of_nat_positive; lia).
  rewrite map_repeat.
  change ((0 - 0) * (0 - 0))%float with 0%float.
  rewrite fsum_zeros.
  rewrite (zero_div_positive (float_of_nat (w - 1)))
    by (apply float_of_nat_positive; lia).
  reflexivity.
Qed.

(** The window of [w] returns ending at a position from [w] on. *)
Lemma window_of_zeros (w i k : nat) :
  1 <= w -> w <= i -> i <= k ->
  window_at w i (PrimFloat.nan :: repeat 0%float k)
  = Some (repeat 0%float w).
Proof.
  intros Hw Hi Hk. unfold window_at.
  destruct (Nat.leb_spec w (i + 1)); [|lia]. f_equal.
  replace (i + 1 - w) with (S (i - w)) by lia. cbn [skipn].
  rewrite skipn_repeat. apply firstn_repeat. lia.
Qed.

End ConstantSeries.

(** ** Where kept rows stand *)

Section KeptRows.

(** A kept row stands at an index label of the frame from which both
    windows are full. *)
Lemma kept_row_position (vw mw : nat) (df : list Bar) (r : Row) :
  In r (compute_indicators_with vw mw df) ->
  nth_error df (idx r) = Some (bar r) /\
  vw <= idx r /\ mw - 1 <= idx r.
Proof.
  intros Hin. apply in_compute_indicators_with in Hin.
  destruct Hin as [Hin Hnan].
  destruct (row_has_nan_false r Hnan) as (_ & Hstd & Hma).
  apply in_with_indicators in Hin. destruct Hin as (i & b & Hn & ->).
  cbn [idx bar rolling_std_20 MA200] in *.
  assert (Hlt : i < length (map (fun b => close (data b)) df)).
  { rewrite length_map. apply nth_error_Some. congruence. }
  repeat split; try assumption.
  - destruct (Nat.le_gt_cases vw i) as [|Hshort]; [assumption|exfalso].
    rewrite (rolling_at_returns_short vw _ _ i Hlt Hshort) in Hstd.
    discriminate Hstd.
  - destruct (Nat.le_gt_cases (mw - 1) i) as [|Hshort]; [assumption|exfalso].
    rewrite rolling_at_short in Hma by lia. discriminate Hma.
Qed.

(** Too short a frame keeps no row. *)
Lemma short_frame_keeps_nothing (vw mw : nat) (df : list Bar) :
  length df <= Nat.max vw (mw - 1) -> compute_indicators_with vw mw df = [].
Proof.
  intros Hlen. destruct (compute_indicators_with vw mw df) as [|r rest] eqn:E;
    [reflexivity|exfalso].
  assert (Hin : In r (compute_indicators_with vw mw df))
    by (rewrite E; now left).
  destruct (kept_row_position vw mw df r Hin) as (Hn & Hv & Hm).
  assert (idx r < length df) by (apply nth_error_Some; congruence).
  lia.
Qed.

End KeptRows.

(** ** The claims about the indicators *)



(** C6, as worded, fails: of 200 bars the script keeps the last one, at
    index label 199, which has 199 observations before it and not
    [max 20 200 = 200]. *)
Lemma C6_counterexample :
  map idx (compute_indicators (attach_symbol "A" (zigzag_series 200)))
  = [199]
  /\ Nat.max VOL_WINDOW MA_WINDOW = 200
  /\ rows_have_full_history_before VOL_WINDOW MA_WINDOW
       (attach_symbol "A" (zigzag_series 200)) = false.
Proof. repeat split; vm_compute; reflexivity. Qed.

(** C6, amended. Every row [compute_indicators] returns is a row of the
    input frame at an index label with at least [max vw (mw - 1)]
    observations before it ([vw] returns need [vw] earlier closes, [mw]
    closes end at the row itself), that is, with at least [max vw mw]
    observations up to and including it; and none of its float columns,
    derived ones included, is NaN; a row without that much history is not
    returned at all. *)
Theorem C6_rows_need_history (vw mw : nat) (df : list Bar) (r : Row) :
  In r (compute_indicators_with vw mw df) ->
  nth_error df (idx r) = Some (bar r) /\
  Nat.max vw (mw - 1) <= idx r /\
  Nat.max vw mw <= S (idx r) /\
  row_has_nan r = false /\
  PrimFloat.is_nan (return_ r) = false /\
  PrimFloat.is_nan (rolling_std_20 r) = false /\
  PrimFloat.is_nan (MA200 r) = false.
Proof.
  intros Hin. destruct (kept_row_position vw mw df r Hin) as (Hn & Hv & Hm).
  apply in_compute_indicators_with in Hin. destruct Hin as [_ Hnan].
  destruct (row_has_nan_false r Hnan) as (Hret & Hstd & Hma).
  repeat split; try assumption.
  - now apply Nat.max_lub.
  - apply Nat.max_lub; lia.
Qed.

Lemma C6_rows_need_history_witness :
  In tie_row (compute_indicators (attach_symbol "A" (flat_series 100 200)))
  /\ Nat.max VOL_WINDOW (MA_WINDOW - 1) <= idx tie_row.
Proof.
  assert (H : In tie_row
            (compute_indicators (attach_symbol "A" (flat_series 100 200)))).
  { vm_compute. left. reflexivity. }
  split; [exact H|].
  apply (C6_rows_need_history VOL_WINDOW MA_WINDOW _ _ H).
Defined.

(** C9. For a series whose close is one finite non-zero constant and a
    window of at least 2 (a machine count, below 2^63), the rolling
    realized volatility, the sample standard deviation of the one-period
    returns over the trailing window, is exactly 0 at every index from the
    window size on, and is undefined (NaN) before. *)
Theorem C9_constant_close_zero_vol (c : float) (df : list Bar)
  (w i : nat) :
  finite_nonzero c = true ->
  (forall b, In b df -> close (data b) = c) ->
  2 <= w -> (Z.of_nat w < 2 ^ 63)%Z -> i < length df ->
  nth i (rolling_std w (pct_change (map (fun b => close (data b)) df)))
    PrimFloat.nan
  = if w <=? i then 0%float else PrimFloat.nan.
Proof.
  intros Hc Hall Hw Hb Hi.
  rewrite (map_constant _ c df Hall).
  unfold rolling_std.
  rewrite nth_rolling by (now rewrite length_pct_change, repeat_length).
  destruct (Nat.leb_spec w i) as [Hwi|Hwi].
  - destruct (length df) as [|k] eqn:E; [lia|].
    rewrite (pct_change_constant c k Hc). unfold rolling_at.
    rewrite window_of_zeros by lia.
    rewrite forallb_not_nan_zeros. now apply sample_std_zeros.
  - apply rolling_at_returns_short; [now rewrite repeat_length|assumption].
Qed.

Lemma C9_constant_close_zero_vol_witness :
  nth 25
    (rolling_std VOL_WINDOW
       (pct_change
          (map (fun b => close (data b))
             (attach_symbol "A" (flat_series 100 30)))))
    PrimFloat.nan
  = 0%float.
Proof.
  apply (C9_constant_close_zero_vol 100%float
           (attach_symbol "A" (flat_series 100 30)) VOL_WINDOW 25).
  - reflexivity.
  - intros b Hb. vm_compute in Hb.
    repeat (destruct Hb as [<-|Hb]; [reflexivity|]). destruct Hb.
  - unfold VOL_WINDOW. lia.
  - unfold VOL_WINDOW. lia.
  - vm_compute. lia.
Defined.

(** ** The order of contract-month tokens *)

Section TokenOrder.

Lemma ascii_compare_lt_trans (a b c : ascii) :
  Ascii.compare a b = Lt -> Ascii.compare b c = Lt ->
  Ascii.compare a c = Lt.
Proof.
  unfold Ascii.compare. rewrite !N.compare_lt_iff. lia.
Qed.

Lemma string_compare_lt_trans (s t u : string) :
  String.compare s t = Lt -> String.compare t u = Lt ->
  String.compare s u = Lt.
Proof.
  revert t u. induction s as [|a s IH]; intros [|b t] [|c u]; cbn;
    try discriminate; try reflexivity.
  destruct (Ascii.compare a b) eqn:Eab; try discriminate;
    destruct (Ascii.compare b c) eqn:Ebc; try discriminate; intros H1 H2.
  - apply Ascii.compare_eq_iff in Eab, Ebc. subst.
    replace (Ascii.compare c c) with Eq
      by (symmetry; unfold Ascii.compare; apply N.compare_refl).
    now apply (IH t u).
  - apply Ascii.compare_eq_iff in Eab. subst. now rewrite Ebc.
  - apply Ascii.compare_eq_iff in Ebc. subst. now rewrite Eab.
  - now rewrite (ascii_compare_lt_trans a b c Eab Ebc).
Qed.

Lemma string_compare_refl (s : string) : String.compare s s = Eq.
Proof.
  induction s as [|a s IH]; [reflexivity|]. cbn.
  replace (Ascii.compare a a) with Eq
    by (symmetry; unfold Ascii.compare; apply N.compare_refl).
  exact IH.
Qed.

(** [s <= t], read as "not [t < s]", is transitive. *)
Lemma not_ltb_trans (s t u : string) :
  String.ltb t s = false -> String.ltb u t = false ->
  String.ltb u s = false.
Proof.
  unfold String.ltb. intros Hts Hut.
  destruct (String.compare u s) eqn:Eus; try reflexivity. exfalso.
  destruct (String.compare t s) eqn:Ets; try discriminate;
    destruct (String.compare u t) eqn:Eut; try discriminate.
  - apply String.compare_eq_iff in Ets, Eut. subst.
    rewrite string_compare_refl in Eus. discriminate.
  - apply String.compare_eq_iff in Ets. subst. congruence.
  - apply String.compare_eq_iff in Eut. subst. congruence.
  - rewrite String.compare_antisym in Ets, Eut.
    destruct (String.compare s t) eqn:Est; try discriminate.
    destruct (String.compare t u) eqn:Etu; try discriminate.
    pose proof (string_compare_lt_trans s t u Est Etu) as Hsu.
    rewrite String.compare_antisym, Hsu in Eus. discriminate.
Qed.

Lemma ltb_asym (s t : string) :
  String.ltb s t = true -> String.ltb t s = false.
Proof.
  unfold String.ltb. rewrite (String.compare_antisym t s).
  destruct (String.compare s t); cbn; intros H; congruence.
Qed.

End TokenOrder.

(** ** Front-month selection *)

Section FrontMonth.

Lemma hd_insert_by_month (c : Contract) (sorted : list Contract) :
  hd_error (insert_by_month c sorted)
  = match sorted with
    | [] => Some c
    | d :: _ => if String.ltb (token d) (token c) then Some d else Some c
    end.
Proof.
  destruct sorted as [|d rest]; [reflexivity|]. cbn.
  destruct (String.ltb (token d) (token c)); reflexivity.
Qed.

Lemma sort_by_month_cons (c : Contract) (l : list Contract) :
  sort_by_month (c :: l) = insert_by_month c (sort_by_month l).
Proof. reflexivity. Qed.

Lemma sort_by_month_nil (l : list Contract) :
  sort_by_month l = [] -> l = [].
Proof.
  destruct l as [|c l]; [reflexivity|]. rewrite sort_by_month_cons.
  destruct (sort_by_month l) as [|d rest]; cbn; [discriminate|].
  destruct (String.ltb (token d) (token c)); discriminate.
Qed.

(** The head of the sorted list is the first entry with the smallest
    token. *)
Lemma hd_sort_by_month (l : list Contract) (c : Contract) :
  hd_error (sort_by_month l) = Some c -> first_smallest l c.
Proof.
  revert c. induction l as [|x l IH]; intros c; [discriminate|].
  rewrite sort_by_month_cons, hd_insert_by_month.
  destruct (sort_by_month l) as [|d rest] eqn:Es.
  - intros H. inversion H; subst c. apply sort_by_month_nil in Es. subst l.
    exists [], []. repeat split; intros y [].
  - destruct (IH d eq_refl) as (before & after & -> & Hb & Ha).
    destruct (String.ltb (token d) (token x)) eqn:E; intros H;
      inversion H; subst c.
    + exists (x :: before), after. repeat split.
      * intros y [<-|Hy]; [exact E|now apply Hb].
      * exact Ha.
    + exists [], (before ++ d :: after). repeat split; [intros y []|].
      intros y Hy. apply in_app_or in Hy. destruct Hy as [Hy|[<-|Hy]].
      * apply (not_ltb_trans (token x) (token d) (token y)); [exact E|].
        apply ltb_asym. now apply Hb.
      * exact E.
      * apply (not_ltb_trans (token x) (token d) (token y)); [exact E|].
        now apply Ha.
Qed.

Lemma hd_sort_by_month_some (l : list Contract) :
  l <> [] -> exists c, hd_error (sort_by_month l) = Some c.
Proof.
  intros H. destruct (sort_by_month l) as [|c rest] eqn:E.
  - now apply sort_by_month_nil in E.
  - now exists c.
Qed.

Lemma insert_by_month_permutation (c : Contract) (l : list Contract) :
  Permutation (c :: l) (insert_by_month c l).
Proof.
  induction l as [|d rest IH]; cbn; [apply Permutation_refl|].
  destruct (String.ltb (token d) (token c)).
  - apply perm_trans with (d :: c :: rest); [apply perm_swap|].
    now apply perm_skip.
  - apply Permutation_refl.
Qed.

(** The sorted list holds the same contracts. *)
Lemma sort_by_month_permutation (l : list Contract) :
  Permutation l (sort_by_month l).
Proof.
  induction l as [|c l IH]; [apply perm_nil|]. rewrite sort_by_month_cons.
  apply perm_trans with (c :: sort_by_month l).
  - now apply perm_skip.
  - apply insert_by_month_permutation.
Qed.

Lemma insert_by_month_sorted (c : Contract) (l : list Contract) :
  StronglySorted month_le l -> StronglySorted month_le (insert_by_month c l).
Proof.
  induction 1 as [|d rest Hs IH Hall]; cbn.
  - constructor; constructor.
  - destruct (String.ltb (token d) (token c)) eqn:E.
    + constructor; [exact IH|].
      rewrite Forall_forall in *. intros y Hy.
      apply (Permutation_in _
               (Permutation_sym (insert_by_month_permutation c rest))) in Hy.
      destruct Hy as [<-|Hy]; [|now apply Hall].
      unfold month_le. now apply ltb_asym.
    + constructor; [now constructor|]. constructor; [exact E|].
      rewrite Forall_forall in *. intros y Hy. unfold month_le in *.
      apply (not_ltb_trans (token c) (token d) (token y)); [exact E|].
      now apply Hall.
Qed.

(** The sorted list is in ascending order of the tokens. *)
Lemma sort_by_month_sorted (l : list Contract) :
  StronglySorted month_le (sort_by_month l).
Proof.
  induction l as [|c l IH]; [constructor|]. rewrite sort_by_month_cons.
  now apply insert_by_month_sorted.
Qed.

(** What [get_front_month_contract] returns, from the listed details. *)
Lemma front_contract_of_eq (ib : IB) (info : SymbolInfo) :
  front_contract_of ib info
  = hd_error (sort_by_month (valid_contracts (details_of ib info))).
Proof.
  unfold front_contract_of, get_front_month_contract, details_of.
  destruct (reqContractDetails ib _) as [|d details]; [reflexivity|].
  destruct (valid_contracts (d :: details)); reflexivity.
Qed.

Lemma in_valid_contracts (details : list ContractDetails) (c : Contract) :
  In c (valid_contracts details) <->
  In c (map contract details) /\ has_valid_month c = true.
Proof. unfold valid_contracts. apply filter_In. Qed.

Lemma has_valid_month_iff (c : Contract) :
  has_valid_month c = true <->
  token c <> ""%string /\ 6 <= String.length (token c).
Proof.
  unfold has_valid_month.
  rewrite andb_true_iff, negb_true_iff, String.eqb_neq, Nat.leb_le.
  tauto.
Qed.

End FrontMonth.

(** C2. Front-month resolution keeps the listed contracts whose expiry
    token is present (not the empty string) and at least 6 characters long;
    it returns [None] when none is kept; otherwise it returns a kept
    contract whose token is the smallest in the order of strings, and among
    kept contracts with that token the first in the listed order: the kept
    contracts before it have a strictly larger token, those after it a
    token that is not smaller.  For tokens 202403, 202406, 202312 it
    returns the contract tagged 202312. *)
Theorem C2_front_month_first_smallest (ib : IB) (info : SymbolInfo) :
  let valid := valid_contracts (details_of ib info) in
  (forall c,
      In c valid <->
      In c (map contract (details_of ib info)) /\
      token c <> ""%string /\ 6 <= String.length (token c)) /\
  (valid = [] -> front_contract_of ib info = None) /\
  (valid <> [] -> exists c, front_contract_of ib info = Some c) /\
  (forall c,
      front_contract_of ib info = Some c ->
      (forall y, In y valid -> String.ltb (token y) (token c) = false) /\
      exists before after,
        valid = before ++ c :: after /\
        (forall y, In y before -> String.ltb (token c) (token y) = true) /\
        (forall y, In y after -> String.ltb (token y) (token c) = false)) /\
  front_contract_of (mkIB true (fun _ => Returned [])
                       (fun c => sample_details (c_symbol c)))
    (instrument "A")
  = Some (contract (listed "A" "202312" 3)).
Proof.
  intros valid. subst valid. rewrite front_contract_of_eq.
  split; [|split; [|split; [|split]]].
  - intros c. rewrite in_valid_contracts, has_valid_month_iff. tauto.
  - intros ->. reflexivity.
  - apply hd_sort_by_month_some.
  - intros c Hc. apply hd_sort_by_month in Hc.
    split; [|exact Hc]. destruct Hc as (before & after & -> & Hb & Ha).
    intros y Hy. apply in_app_or in Hy. destruct Hy as [Hy|[<-|Hy]].
    + apply ltb_asym. now apply Hb.
    + unfold String.ltb. now rewrite string_compare_refl.
    + now apply Ha.
  - reflexivity.
Qed.

(** C8, as worded, fails: a listing whose token is six letters, no
    calendar month, is returned; and so is a listing for January 2000,
    long past on any date of 2024. *)
Lemma C8_counterexample :
  front_contract_of (single_listing "ABCDEF") (instrument "A")
  = Some (contract (listed "A" "ABCDEF" 7))
  /\ token_month "ABCDEF" = None
  /\ front_contract_of (single_listing "200001") (instrument "A")
     = Some (contract (listed "A" "200001" 7))
  /\ token_month "200001" = Some (2000, 1)%Z
  /\ already_past (mkDate 2024 3 25) "200001" = true.
Proof. repeat split; reflexivity. Qed.

(** C8, amended. Every contract front-month resolution returns is one of
    the contracts the session listed, and its expiry token is not empty and
    at least six characters long.  The token is not read as a month and no
    date enters the selection, so neither a calendar month nor an expiry
    still ahead is promised. *)
Theorem C8_returned_contract_is_listed (ib : IB) (info : SymbolInfo)
  (c : Contract) :
  front_contract_of ib info = Some c ->
  In c (map contract (details_of ib info)) /\
  token c <> ""%string /\
  6 <= String.length (token c).
Proof.
  rewrite front_contract_of_eq. intros H. apply hd_sort_by_month in H.
  destruct H as (before & after & Hv & _).
  assert (Hin : In c (valid_contracts (details_of ib info))).
  { rewrite Hv. apply in_or_app. right. now left. }
  apply in_valid_contracts in Hin. destruct Hin as [Hin Hok].
  apply has_valid_month_iff in Hok. tauto.
Qed.

Lemma C8_returned_contract_is_listed_witness :
  front_contract_of (single_listing "202512") (instrument "A")
  = Some (contract (listed "A" "202512" 7))
  /\ 6 <= String.length (token (contract (listed "A" "202512" 7))).
Proof.
  assert (H : front_contract_of (single_listing "202512") (instrument "A")
              = Some (contract (listed "A" "202512" 7))) by reflexivity.
  split; [exact H|].
  apply (C8_returned_contract_is_listed _ _ _ H).
Defined.

(** ** The cycle: traces and the map of snapshots *)

Section Cycle.

Lemma fst_bind {A B} (m : IO A) (k : A -> IO B) :
  fst (bind m k) = fst m ++ fst (k (snd m)).
Proof. reflexivity. Qed.

Lemma snd_bind {A B} (m : IO A) (k : A -> IO B) :
  snd (bind m k) = snd (k (snd m)).
Proof. reflexivity. Qed.

Lemma orders_of_app (a b : list Event) :
  orders_of (a ++ b) = orders_of a ++ orders_of b.
Proof. unfold orders_of. apply flat_map_app. Qed.

Lemma fetch_events_no_order (tr : list Event) :
  Forall fetch_event tr -> orders_of tr = [].
Proof.
  induction 1 as [|e tr He _ IH]; [reflexivity|].
  change (e :: tr) with ([e] ++ tr). rewrite orders_of_app, IH.
  destruct e; try reflexivity; destruct He.
Qed.

Lemma fetch_events_no_disconnect (tr : list Event) :
  Forall fetch_event tr -> filter is_disconnect tr = [].
Proof.
  induction 1 as [|e tr He _ IH]; [reflexivity|]. cbn. rewrite IH.
  destruct e; try reflexivity; destruct He.
Qed.

Lemma order_events_no_disconnect (tr : list Event) :
  Forall order_event tr -> filter is_disconnect tr = [].
Proof.
  induction 1 as [|e tr He _ IH]; [reflexivity|]. cbn. rewrite IH.
  destruct e; try reflexivity; destruct He.
Qed.

(** *** The first loop *)

Lemma get_continuous_data_events (ib : IB) (info : SymbolInfo) :
  Forall fetch_event (fst (get_continuous_data ib info)).
Proof.
  unfold get_continuous_data. rewrite fst_bind. cbn [emit fst snd app].
  constructor; [exact I|].
  destruct (reqHistoricalData ib _) as [[|b bars]|e]; cbn;
    repeat constructor.
Qed.

Lemma fetch_step_events (ib : IB) (info : SymbolInfo) (m : Dict) :
  Forall fetch_event (fst (fetch_step ib info m)).
Proof.
  unfold fetch_step. rewrite fst_bind. apply Forall_app. split.
  - apply get_continuous_data_events.
  - destruct (snd (get_continuous_data ib info)) as [[|b df]|]; cbn;
      try constructor.
    destruct (iloc_last _); cbn; repeat constructor.
Qed.

Lemma fetch_step_map (ib : IB) (info : SymbolInfo) (m : Dict) :
  snd (fetch_step ib info m)
  = match snapshot_of ib info with
    | Some d => dict_set (symbol info) d m
    | None => m
    end.
Proof.
  unfold fetch_step, snapshot_of. rewrite snd_bind.
  destruct (snd (get_continuous_data ib info)) as [[|b df]|];
    try reflexivity.
  destruct (iloc_last _); reflexivity.
Qed.

Lemma fetch_loop_events (ib : IB) (universe : list SymbolInfo) (m : Dict) :
  Forall fetch_event (fst (fetch_loop ib universe m)).
Proof.
  revert m. induction universe as [|info rest IH]; intros m; cbn [fetch_loop].
  - constructor.
  - rewrite fst_bind. apply Forall_app. split.
    + apply fetch_step_events.
    + apply IH.
Qed.

Lemma dict_set_fresh (k : string) (v : SymbolData) (m : Dict) :
  ~ In k (map fst m) -> dict_set k v m = m ++ [(k, v)].
Proof.
  induction m as [|[k' v'] m IH]; intros H; [reflexivity|]. cbn in *.
  destruct (String.eqb_spec k' k) as [->|_]; [tauto|].
  f_equal. apply IH. tauto.
Qed.

Lemma entry_of_keys (ib : IB) (info : SymbolInfo) (k : string) :
  In k (map fst (entry_of ib info)) -> k = symbol info.
Proof.
  unfold entry_of. destruct (snapshot_of ib info); cbn; [|tauto].
  intros [<-|[]]. reflexivity.
Qed.

(** With distinct symbols, every assignment of the first loop adds a new
    key: the map is the list of the instruments' entries, in order. *)
Lemma fetch_loop_map (ib : IB) (universe : list SymbolInfo) (m : Dict) :
  NoDup (map symbol universe) ->
  (forall info, In info universe -> ~ In (symbol info) (map fst m)) ->
  snd (fetch_loop ib universe m) = m ++ flat_map (entry_of ib) universe.
Proof.
  revert m. induction universe as [|info rest IH]; intros m Hnd Hfresh.
  - cbn. now rewrite app_nil_r.
  - cbn [fetch_loop flat_map]. rewrite snd_bind, fetch_step_map.
    inversion Hnd as [|? ? Hnotin Hnd']; subst.
    unfold entry_of at 1. destruct (snapshot_of ib info) as [d|].
    + rewrite dict_set_fresh by (apply Hfresh; now left).
      rewrite IH; [now rewrite <- app_assoc|assumption|].
      intros info' Hin. rewrite map_app, in_app_iff. cbn.
      intros [H|[H|[]]].
      * apply (Hfresh info'); [now right|exact H].
      * apply Hnotin. rewrite H. now apply in_map.
    + cbn [app]. apply IH; [assumption|].
      intros info' Hin. apply Hfresh. now right.
Qed.

Lemma fetched_map_entries (ib : IB) (universe : list SymbolInfo) :
  NoDup (map symbol universe) ->
  fetched_map universe ib = flat_map (entry_of ib) universe.
Proof.
  intros Hnd. unfold fetched_map.
  rewrite fetch_loop_map; [reflexivity|assumption|]. intros info _ [].
Qed.

(** *** The order loop *)

Lemma get_front_month_contract_events (ib : IB) (info : SymbolInfo) :
  Forall order_event (fst (get_front_month_contract ib info)) /\
  orders_of (fst (get_front_month_contract ib info)) = [].
Proof.
  unfold get_front_month_contract. rewrite fst_bind. cbv zeta.
  destruct (reqContractDetails ib _) as [|d details].
  - cbn. split; [repeat constructor|reflexivity].
  - destruct (valid_contracts (d :: details)); cbn;
      (split; [repeat constructor|reflexivity]).
Qed.

Lemma order_step_events (universe : list SymbolInfo) (ib : IB)
  (item : string * SymbolData) :
  Forall order_event (fst (order_step universe ib item)).
Proof.
  unfold order_step. destruct (find _ universe) as [info|]; [|constructor].
  rewrite fst_bind. apply Forall_app. split.
  - apply get_front_month_contract_events.
  - destruct (snd (get_front_month_contract ib info)); cbn;
      repeat constructor.
Qed.

Lemma order_loop_events (universe : list SymbolInfo) (ib : IB)
  (items : Dict) :
  Forall order_event (fst (order_loop universe ib items)).
Proof.
  induction items as [|item rest IH]; cbn [order_loop]; [constructor|].
  rewrite fst_bind. apply Forall_app. split.
  - apply order_step_events.
  - exact IH.
Qed.

Lemma distinct_NoDup (l : list string) : distinct l = true -> NoDup l.
Proof.
  induction l as [|x rest IH]; cbn; [constructor|].
  rewrite andb_true_iff, negb_true_iff. intros [Hx Hrest].
  constructor; [|now apply IH]. intros Hin.
  assert (existsb (String.eqb x) rest = true); [|congruence].
  apply existsb_exists. exists x. split; [exact Hin|apply String.eqb_refl].
Qed.






(** *** The whole run *)

Lemma run_connected_eq (universe : list SymbolInfo) (w : World) (ib : IB) :
  run_connected universe w ib
  = (fst (fetch_loop ib universe [])
       ++ gate_trace universe w ib (fetched_map universe ib),
     Returned None).
Proof.
  unfold run_connected, gate_trace, fetched_map.
  unfold bind at 1. cbn [fst snd].
  destruct (snd (fetch_loop ib universe [])) as [|kv m] eqn:E.
  - reflexivity.
  - unfold is_volatile_of, is_rebalance_day_of.
    destruct ((day (today w) =? 25)%Z && _); cbn; rewrite ?app_nil_r;
      reflexivity.
Qed.

Lemma run_eq (universe : list SymbolInfo) (w : World) (paper : bool) :
  isConnected (session w) = true ->
  run_mlm_strategy_on universe w paper
  = (connect_trace paper
       ++ fst (fetch_loop (session w) universe [])
       ++ gate_trace universe w (session w)
            (fetched_map universe (session w)),
     Returned None).
Proof.
  intros Hc. unfold run_mlm_strategy_on, connect_ibkr. rewrite Hc.
  unfold bind at 1. cbn [emit fst snd print ret bind app].
  rewrite run_connected_eq. reflexivity.
Qed.

Lemma run_not_connected (universe : list SymbolInfo) (w : World)
  (paper : bool) :
  isConnected (session w) = false ->
  run_mlm_strategy_on universe w paper
  = ([Connect (if paper then 7497 else 7496)%Z 9999],
     Raised (ConnectionError "Failed to connect to IBKR.")).
Proof.
  intros Hc. unfold run_mlm_strategy_on, connect_ibkr. rewrite Hc.
  reflexivity.
Qed.

End Cycle.

(** ** The claims about the cycle *)

Section CycleClaims.

Lemma gate_trace_ends (universe : list SymbolInfo) (w : World) (ib : IB)
  (m : Dict) :
  exists before,
    gate_trace universe w ib m = before ++ [Disconnect] /\
    filter is_disconnect before = [].
Proof.
  unfold gate_trace. destruct m as [|kv m].
  - exists [Printed LogNoData]. split; reflexivity.
  - destruct (is_rebalance_day_of w && is_volatile_of (kv :: m)).
    + eexists. split; [rewrite app_assoc; reflexivity|].
      cbn [app filter is_disconnect]. rewrite filter_app.
      rewrite (order_events_no_disconnect _ (order_loop_events _ _ _)).
      reflexivity.
    + eexists. split; [rewrite app_assoc; reflexivity|]. reflexivity.
Qed.

Lemma gate_trace_orders (universe : list SymbolInfo) (w : World) (ib : IB)
  (m : Dict) :
  orders_of (gate_trace universe w ib m)
  = match m with
    | [] => []
    | _ =>
        if is_rebalance_day_of w && is_volatile_of m
        then orders_of (fst (order_loop universe ib m))
        else []
    end.
Proof.
  unfold gate_trace. destruct m as [|kv m]; [reflexivity|].
  destruct (is_rebalance_day_of w && is_volatile_of (kv :: m)).
  - rewrite !orders_of_app. cbn. now rewrite !app_nil_r.
  - reflexivity.
Qed.

Lemma gate_trace_placing (universe : list SymbolInfo) (w : World) (ib : IB)
  (m : Dict) :
  In (Printed LogPlacingOrders) (gate_trace universe w ib m) <->
  m <> [] /\ is_rebalance_day_of w && is_volatile_of m = true.
Proof.
  unfold gate_trace. destruct m as [|kv m].
  - cbn. split; [intros [H|[H|[]]]; discriminate|]. intros [H _]. congruence.
  - destruct (is_rebalance_day_of w && is_volatile_of (kv :: m)).
    + split; [intros _; split; [discriminate|reflexivity]|]. intros _.
      cbn. right. right. now left.
    + cbn. split; [|intros [_ H]; discriminate].
      intros [H|[H|[H|[H|[]]]]]; discriminate.
Qed.

Lemma run_orders (universe : list SymbolInfo) (w : World) (paper : bool) :
  isConnected (session w) = true ->
  orders_of (fst (run_mlm_strategy_on universe w paper))
  = orders_of
      (gate_trace universe w (session w) (fetched_map universe (session w))).
Proof.
  intros Hc. rewrite (run_eq universe w paper Hc). cbn [fst].
  rewrite !orders_of_app.
  rewrite (fetch_events_no_order _ (fetch_loop_events _ _ _)).
  reflexivity.
Qed.

(** C1, as worded, fails: on the 24th, with a volatile basket, the run
    over the module's universe places no order and hands back [None], not
    a summary; its last lines are the two gate lines and the no-trade
    line. *)
Lemma C1_counterexample :
  is_rebalance_day_of (on_day 24 one_bad_feed) = false
  /\ snd (run_mlm_strategy (on_day 24 one_bad_feed) true) = Returned None
  /\ orders_of (fst (run_mlm_strategy (on_day 24 one_bad_feed) true)) = []
  /\ exists avg_vol,
       skipn 27 (fst (run_mlm_strategy (on_day 24 one_bad_feed) true))
       = [Printed (LogAvgVol avg_vol);
          Printed (LogVolCheck true VOL_THRESHOLD);
          Printed LogNoTrades; Disconnect].
Proof.
  split; [reflexivity|]. split; [vm_compute; reflexivity|].
  split; [vm_compute; reflexivity|].
  eexists. vm_compute. reflexivity.
Qed.

(** C1, amended. In a run that connects, the order phase is entered exactly
    when the map of snapshots is not empty, the day of the month that
    [datetime.today()] reads is 25 and the average volatility is strictly
    above the threshold; a run that places an order has both gates open, so
    every other combination places none.  The run then disconnects and
    returns [None]: it builds no summary. *)
Theorem C1_orders_need_both_gates (universe : list SymbolInfo) (w : World)
  (paper : bool) :
  isConnected (session w) = true ->
  let m := fetched_map universe (session w) in
  let out := run_mlm_strategy_on universe w paper in
  (In (Printed LogPlacingOrders) (fst out) <->
   m <> [] /\ day (today w) = 25%Z
   /\ fgt (avg_vol_of m) VOL_THRESHOLD = true) /\
  (orders_of (fst out) <> [] ->
   day (today w) = 25%Z /\ fgt (avg_vol_of m) VOL_THRESHOLD = true) /\
  (is_rebalance_day_of w && is_volatile_of m = false ->
   orders_of (fst out) = []) /\
  snd out = Returned None /\
  (exists before, fst out = before ++ [Disconnect]).
Proof.
  intros Hc m out.
  assert (Hgates : is_rebalance_day_of w && is_volatile_of m = true <->
                   day (today w) = 25%Z
                   /\ fgt (avg_vol_of m) VOL_THRESHOLD = true).
  { unfold is_rebalance_day_of, is_volatile_of.
    rewrite andb_true_iff, Z.eqb_eq. tauto. }
  split; [|split; [|split; [|split]]].
  - subst out. rewrite (run_eq universe w paper Hc). cbn [fst].
    rewrite !in_app_iff, gate_trace_placing. fold m. split.
    + intros [H|[H|H]].
      * destruct H as [H|[H|[]]]; discriminate.
      * pose proof (fetch_loop_events (session w) universe []) as Hev.
        rewrite Forall_forall in Hev. destruct (Hev _ H).
      * tauto.
    + intros H. right. right. tauto.
  - subst out. rewrite (run_orders universe w paper Hc), gate_trace_orders.
    fold m. destruct m as [|kv m']; [congruence|].
    destruct (is_rebalance_day_of w && is_volatile_of (kv :: m')) eqn:E;
      [|congruence].
    intros _. now apply Hgates.
  - intros Hclosed. subst out.
    rewrite (run_orders universe w paper Hc), gate_trace_orders.
    fold m. rewrite Hclosed. now destruct m.
  - subst out. now rewrite (run_eq universe w paper Hc).
  - subst out. rewrite (run_eq universe w paper Hc). cbn [fst].
    destruct (gate_trace_ends universe w (session w) m) as (g & Hg & _).
    fold m. rewrite Hg. eexists. now rewrite !app_assoc.
Qed.

Lemma C1_orders_need_both_gates_witness :
  isConnected (session (on_day 25 one_bad_feed)) = true
  /\ snd (run_mlm_strategy (on_day 25 one_bad_feed) true) = Returned None.
Proof.
  split; [reflexivity|].
  apply (C1_orders_need_both_gates mlm_universe (on_day 25 one_bad_feed)
           true).
  reflexivity.
Defined.

(** C10. In every run that connects, the trace ends with the one and only
    [Disconnect], and the run then returns: on the path that stops for want
    of data and on the path through the gates, with or without orders. *)
Theorem C10_disconnect_once (universe : list SymbolInfo) (w : World)
  (paper : bool) :
  isConnected (session w) = true ->
  let out := run_mlm_strategy_on universe w paper in
  (exists before,
      fst out = before ++ [Disconnect] /\
      filter is_disconnect before = []) /\
  length (filter is_disconnect (fst out)) = 1 /\
  snd out = Returned None.
Proof.
  intros Hc out. subst out. rewrite (run_eq universe w paper Hc).
  cbn [fst snd].
  destruct (gate_trace_ends universe w (session w)
              (fetched_map universe (session w))) as (g & Hg & Hnone).
  rewrite Hg.
  assert (Hbefore :
            filter is_disconnect
              (connect_trace paper
                 ++ fst (fetch_loop (session w) universe []) ++ g) = []).
  { rewrite !filter_app, Hnone.
    rewrite (fetch_events_no_disconnect _ (fetch_loop_events _ _ _)).
    reflexivity. }
  split; [|split; [|reflexivity]].
  - eexists. split; [|exact Hbefore]. now rewrite !app_assoc.
  - rewrite !app_assoc, filter_app, <- !app_assoc, Hbefore. reflexivity.
Qed.

Lemma C10_disconnect_once_witness :
  isConnected (session (on_day 25 silent_session)) = true
  /\ length
       (filter is_disconnect
          (fst (run_mlm_strategy (on_day 25 silent_session) true)))
     = 1.
Proof.
  split; [reflexivity|].
  apply (C10_disconnect_once mlm_universe (on_day 25 silent_session) true).
  reflexivity.
Defined.

End CycleClaims.

(** ** The basket: aggregation and isolation *)

Section Basket.






End Basket.





(** ** Dates play no part *)

Section Dates.

Lemma combine_map_r {A B C} (g : B -> C) (l : list A) (l' : list B) :
  combine l (map g l') = map (fun ab => (fst ab, g (snd ab))) (combine l l').
Proof.
  revert l'. induction l as [|a l IH]; intros [|b l']; cbn; try reflexivity.
  now rewrite IH.
Qed.

Lemma filter_map_commute {A B} (g : A -> B) (p : B -> bool) (l : list A) :
  filter p (map g l) = map g (filter (fun a => p (g a)) l).
Proof.
  induction l as [|a l IH]; [reflexivity|]. cbn.
  destruct (p (g a)); cbn; now rewrite IH.
Qed.

Lemma with_indicators_redate (f : Date -> Date) (vw mw : nat)
  (df : list Bar) :
  with_indicators vw mw (map (redate f) df)
  = map (redate_row f) (with_indicators vw mw df).
Proof.
  unfold with_indicators.
  rewrite (map_map (redate f) (fun b => close (data b))).
  cbn [redate data redate_data close].
  rewrite length_map, combine_map_r, !map_map. reflexivity.
Qed.

(** Changing the dates of a frame changes the dates of the rows kept and
    nothing else. *)
Lemma compute_indicators_redate (f : Date -> Date) (vw mw : nat)
  (df : list Bar) :
  compute_indicators_with vw mw (map (redate f) df)
  = map (redate_row f) (compute_indicators_with vw mw df).
Proof.
  unfold compute_indicators_with, dropna.
  rewrite with_indicators_redate, filter_map_commute. reflexivity.
Qed.

End Dates.

(** C7, as worded, fails: a frame of 250 bars that all carry one date is
    not rejected; it yields the 51 rows any 250-bar frame yields, and its
    instrument gets a snapshot.  And the empty frame yields the empty
    frame, not a failure. *)
Lemma C7_counterexample :
  dates_increasing (attach_symbol "A" (same_day_series 250)) = false
  /\ map idx (compute_indicators (attach_symbol "A" (same_day_series 250)))
     = seq 199 51
  /\ map fst (entry_of same_day_session (instrument "A")) = ["A"%string]
  /\ compute_indicators [] = [].
Proof. repeat split; vm_compute; reflexivity. Qed.

(** C7, amended. Indicator computation has no failure: it returns the
    empty frame for every frame of at most [max vw (mw - 1)] rows, the
    empty frame included, and it never reads the dates, so a frame with
    repeated or unordered dates is treated as any other (re-dating the
    input re-dates the output and changes nothing else).  The caller tells
    the cases apart by what it prints before skipping the instrument: "no
    bars" when the fetched series is empty, "not enough data" when the
    derived frame is. *)
Theorem C7_no_hard_failure (vw mw : nat) (df : list Bar) (f : Date -> Date)
  (ib : IB) (info : SymbolInfo) (m : Dict) :
  (length df <= Nat.max vw (mw - 1) ->
   compute_indicators_with vw mw df = []) /\
  compute_indicators [] = [] /\
  compute_indicators_with vw mw (map (redate f) df)
  = map (redate_row f) (compute_indicators_with vw mw df) /\
  (reqHistoricalData ib (cont_fut_of info) = Returned [] ->
   fetch_step ib info m
   = ([ReqHistoricalData (cont_fut_of info);
       Printed (LogNoBars (symbol info))], m)) /\
  (forall b bars,
      reqHistoricalData ib (cont_fut_of info) = Returned (b :: bars) ->
      compute_indicators (attach_symbol (symbol info) (b :: bars)) = [] ->
      fetch_step ib info m
      = ([ReqHistoricalData (cont_fut_of info);
          Printed (LogNotEnoughData (symbol info))], m)).
Proof.
  split; [apply short_frame_keeps_nothing|].
  split; [reflexivity|].
  split; [apply compute_indicators_redate|].
  split.
  - intros H. unfold fetch_step, get_continuous_data.
    fold (cont_fut_of info). rewrite H. reflexivity.
  - intros b bars H Hci. unfold fetch_step, get_continuous_data.
    fold (cont_fut_of info). rewrite H.
    cbn [attach_symbol map] in Hci |- *.
    unfold bind. cbn [fst snd emit print ret app]. rewrite Hci. reflexivity.
Qed.

(** ** Worked examples *)

(** The four combinations of the two gates over four instruments, three of
    which have data: orders only on the 25th with a volatile basket. *)
Example gate_truth_table :
  map (fun w =>
         length (orders_of (fst (run_mlm_strategy_on four_instruments w true))))
    [ on_day 25 one_bad_feed; on_day 24 one_bad_feed;
      on_day 25 quiet_session; on_day 24 quiet_session ]
  = [3; 0; 0; 0].
Proof. vm_compute. reflexivity. Qed.

(** The signal follows the close across the moving average: an alternating
    close around a moving average of 105 gives alternating signals. *)
Example zigzag_signals :
  map (fun r => (idx r, signal r))
    (compute_indicators (attach_symbol "A" (zigzag_series 203)))
  = [(199, 1%Z); (200, (-1)%Z); (201, 1%Z); (202, (-1)%Z)].
Proof. vm_compute. reflexivity. Qed.

(** Two listings with the same, smallest token: the one listed first is
    returned. *)
Example tie_keeps_listing_order :
  front_contract_of
    (mkIB true (fun _ => Returned [])
       (fun _ => [ listed "A" "202406" 1; listed "A" "202403" 2;
                   listed "A" "" 3; listed "A" "2024" 4;
                   listed "A" "202403" 5 ]))
    (instrument "A")
  = Some (contract (listed "A" "202403" 2)).
Proof. reflexivity. Qed.

(** A run that cannot connect raises at once and never disconnects. *)
Example no_connection_no_disconnect :
  run_mlm_strategy (mkWorld (mkIB false (fun _ => Returned [])
                               (fun _ => []))
                      (mkDate 2024 3 25)) true
  = ([Connect 7497 9999],
     Raised (ConnectionError "Failed to connect to IBKR.")).
Proof. reflexivity. Qed.

(* ================================================================= *)
(** * Further properties of the script *)

(** ** Connecting *)

(** X1. When [connect] does not leave the session connected, the run raises
    [ConnectionError] right after the connection attempt (port 7497 for
    paper trading, 7496 for live, client id 9999): it requests no bars and no
    contract details, places no order and does not disconnect. *)
Theorem X1_failed_connect_stops_the_run (universe : list SymbolInfo)
  (w : World) (paper : bool) :
  isConnected (session w) = false ->
  let out := run_mlm_strategy_on universe w paper in
  out = ([Connect (if paper then 7497 else 7496)%Z 9999],
         Raised (ConnectionError "Failed to connect to IBKR.")) /\
  hist_requests (fst out) = [] /\
  detail_requests (fst out) = [] /\
  orders_of (fst out) = [] /\
  filter is_disconnect (fst out) = [].
Proof.
  intros Hc out. subst out. rewrite (run_not_connected universe w paper Hc).
  repeat split.
Qed.

Lemma X1_failed_connect_stops_the_run_witness :
  isConnected (session (mkWorld (mkIB false (fun _ => Returned [])
                                   (fun _ => []))
                          (mkDate 2024 3 25))) = false
  /\ orders_of
       (fst (run_mlm_strategy_on mlm_universe
               (mkWorld (mkIB false (fun _ => Returned []) (fun _ => []))
                  (mkDate 2024 3 25)) false))
     = [].
Proof.
  split; [reflexivity|].
  apply (X1_failed_connect_stops_the_run mlm_universe
           (mkWorld (mkIB false (fun _ => Returned []) (fun _ => []))
              (mkDate 2024 3 25)) false).
  reflexivity.
Defined.

(** X2. Paper and live mode differ in the port of the connection attempt
    and in the line that reports it, and in nothing else: over a session
    that connects, the two runs have the same trace after these two events,
    place the same orders and return the same value. *)
Theorem X2_paper_and_live_differ_in_port_only (universe : list SymbolInfo)
  (w : World) :
  isConnected (session w) = true ->
  let paper := run_mlm_strategy_on universe w true in
  let live := run_mlm_strategy_on universe w false in
  firstn 2 (fst paper)
  = [Connect 7497 9999; Printed (LogConnected true 7497)] /\
  firstn 2 (fst live)
  = [Connect 7496 9999; Printed (LogConnected false 7496)] /\
  skipn 2 (fst paper) = skipn 2 (fst live) /\
  orders_of (fst paper) = orders_of (fst live) /\
  snd paper = snd live.
Proof.
  intros Hc paper live. subst paper live.
  rewrite !(run_orders universe w _ Hc).
  rewrite (run_eq universe w true Hc), (run_eq universe w false Hc).
  repeat split.
Qed.

Lemma X2_paper_and_live_differ_in_port_only_witness :
  isConnected (session (on_day 25 one_bad_feed)) = true
  /\ orders_of
       (fst (run_mlm_strategy_on four_instruments (on_day 25 one_bad_feed)
               true))
     = orders_of
         (fst (run_mlm_strategy_on four_instruments (on_day 25 one_bad_feed)
                 false)).
Proof.
  split; [reflexivity|].
  apply (X2_paper_and_live_differ_in_port_only four_instruments
           (on_day 25 one_bad_feed)).
  reflexivity.
Defined.

(** ** Fetching *)

Section Fetching.

Lemma get_continuous_data_cases (ib : IB) (info : SymbolInfo) :
  get_continuous_data ib info
  = match reqHistoricalData ib (cont_fut_of info) with
    | Raised e =>
        ([ReqHistoricalData (cont_fut_of info);
          Printed (LogFetchFailed (symbol info) e)], None)
    | Returned [] =>
        ([ReqHistoricalData (cont_fut_of info);
          Printed (LogNoBars (symbol info))], None)
    | Returned bars =>
        ([ReqHistoricalData (cont_fut_of info)],
         Some (attach_symbol (symbol info) bars))
    end.
Proof.
  unfold get_continuous_data. fold (cont_fut_of info).
  destruct (reqHistoricalData ib (cont_fut_of info)) as [[|b bars]|e];
    reflexivity.
Qed.

Lemma fetch_step_no_empty_frame_line (ib : IB) (info : SymbolInfo)
  (m : Dict) :
  filter is_empty_frame_line (fst (fetch_step ib info m)) = [].
Proof.
  unfold fetch_step. rewrite fst_bind, filter_app.
  rewrite get_continuous_data_cases.
  destruct (reqHistoricalData ib (cont_fut_of info)) as [[|b bars]|e];
    try reflexivity.
  cbn [snd fst attach_symbol map filter is_empty_frame_line app].
  destruct (iloc_last _); reflexivity.
Qed.

Lemma fetch_loop_no_empty_frame_line (ib : IB) (universe : list SymbolInfo)
  (m : Dict) :
  filter is_empty_frame_line (fst (fetch_loop ib universe m)) = [].
Proof.
  revert m. induction universe as [|info rest IH]; intros m; [reflexivity|].
  cbn [fetch_loop]. rewrite fst_bind, filter_app.
  now rewrite fetch_step_no_empty_frame_line, IH.
Qed.

Lemma order_events_no_empty_frame_line (tr : list Event) :
  Forall order_event tr -> filter is_empty_frame_line tr = [].
Proof.
  induction 1 as [|e tr He _ IH]; [reflexivity|]. cbn [filter]. rewrite IH.
  destruct e as [| | | | | |[]]; try reflexivity; destruct He.
Qed.

Lemma gate_trace_no_empty_frame_line (universe : list SymbolInfo)
  (w : World) (ib : IB) (m : Dict) :
  filter is_empty_frame_line (gate_trace universe w ib m) = [].
Proof.
  unfold gate_trace. destruct m as [|kv m]; [reflexivity|].
  destruct (is_rebalance_day_of w && is_volatile_of (kv :: m));
    [|reflexivity].
  rewrite !filter_app.
  rewrite (order_events_no_empty_frame_line _ (order_loop_events _ _ _)).
  reflexivity.
Qed.

End Fetching.

(** X3. [get_continuous_data] returns a frame exactly when the request
    returns at least one bar: the frame then has one row per bar, in the
    order of the bars, each under the instrument's symbol, and nothing is
    printed.  It returns [None] exactly when the request raises or returns
    no bars.  The warning for an empty frame built from bars is never
    printed, by this function or anywhere in a run. *)
Theorem X3_frame_iff_bars (ib : IB) (info : SymbolInfo) :
  (forall df,
      snd (get_continuous_data ib info) = Some df <->
      exists b bars,
        reqHistoricalData ib (cont_fut_of info) = Returned (b :: bars) /\
        df = attach_symbol (symbol info) (b :: bars)) /\
  (forall df,
      snd (get_continuous_data ib info) = Some df ->
      df <> [] /\
      reqHistoricalData ib (cont_fut_of info) = Returned (map data df) /\
      Forall (fun row => bar_symbol row = symbol info) df /\
      fst (get_continuous_data ib info)
      = [ReqHistoricalData (cont_fut_of info)]) /\
  (snd (get_continuous_data ib info) = None <->
   reqHistoricalData ib (cont_fut_of info) = Returned [] \/
   exists e, reqHistoricalData ib (cont_fut_of info) = Raised e) /\
  (forall universe w paper,
      filter is_empty_frame_line
        (fst (run_mlm_strategy_on universe w paper)) = []).
Proof.
  assert (Hdata : forall sym bars, map data (attach_symbol sym bars) = bars).
  { intros sym bars. unfold attach_symbol. rewrite map_map. cbn [data].
    apply map_id. }
  assert (Hsym : forall sym bars,
             Forall (fun row => bar_symbol row = sym)
               (attach_symbol sym bars)).
  { intros sym bars. unfold attach_symbol. apply Forall_forall.
    intros row Hrow. apply in_map_iff in Hrow.
    destruct Hrow as (b & <- & _). reflexivity. }
  rewrite get_continuous_data_cases.
  split; [|split; [|split]].
  - intros df.
    destruct (reqHistoricalData ib (cont_fut_of info)) as [[|b bars]|e];
      cbn [snd]; split.
    + discriminate.
    + intros (b & bars & H & _). discriminate.
    + intros H. inversion H. now exists b, bars.
    + intros (b' & bars' & H & ->). now inversion H.
    + discriminate.
    + intros (b & bars & H & _). discriminate.
  - intros df.
    destruct (reqHistoricalData ib (cont_fut_of info)) as [[|b bars]|e];
      cbn [snd fst]; try discriminate.
    intros H. injection H as <-. split; [|split; [|split]].
    + discriminate.
    + cbn [map data]. now rewrite Hdata.
    + apply (Hsym (symbol info) (b :: bars)).
    + reflexivity.
  - destruct (reqHistoricalData ib (cont_fut_of info)) as [[|b bars]|e];
      cbn [snd]; split; try discriminate; try tauto.
    + intros [H|(e & H)]; discriminate.
    + intros _. right. now exists e.
  - intros universe w paper.
    destruct (isConnected (session w)) eqn:Hc.
    + rewrite (run_eq universe w paper Hc). cbn [fst].
      rewrite !filter_app, fetch_loop_no_empty_frame_line,
        gate_trace_no_empty_frame_line.
      reflexivity.
    + now rewrite (run_not_connected universe w paper Hc).
Qed.

(** ** Front-month selection, further *)

Section FrontMonthFurther.

Lemma smallest_of_first_smallest (l : list Contract) (c : Contract) :
  first_smallest l c ->
  In c l /\ forall y, In y l -> String.ltb (token y) (token c) = false.
Proof.
  intros (before & after & -> & Hb & Ha). split.
  - apply in_or_app. right. now left.
  - intros y Hy. apply in_app_or in Hy. destruct Hy as [Hy|[<-|Hy]].
    + apply ltb_asym. now apply Hb.
    + unfold String.ltb. now rewrite string_compare_refl.
    + now apply Ha.
Qed.

Lemma not_ltb_antisym (s t : string) :
  String.ltb s t = false -> String.ltb t s = false -> s = t.
Proof.
  unfold String.ltb. rewrite (String.compare_antisym t s).
  destruct (String.compare s t) eqn:E; cbn; try discriminate.
  intros _ _. now apply String.compare_eq_iff.
Qed.

Lemma ltb_irrefl_token (s t : string) : String.ltb s t = true -> s <> t.
Proof.
  unfold String.ltb. intros H ->. rewrite string_compare_refl in H.
  discriminate.
Qed.

Lemma same_token_same_contract (l : list Contract) (c c' : Contract) :
  NoDup (map token l) -> In c l -> In c' l -> token c = token c' -> c = c'.
Proof.
  induction l as [|x l IH]; intros Hnd Hc Hc' Ht; [destruct Hc|].
  cbn in Hnd. inversion Hnd as [|? ? Hnotin Hnd']; subst.
  destruct Hc as [->|Hc], Hc' as [->|Hc'].
  - reflexivity.
  - exfalso. apply Hnotin. rewrite Ht. now apply in_map.
  - exfalso. apply Hnotin. rewrite <- Ht. now apply in_map.
  - now apply IH.
Qed.

Lemma filter_permutation {A} (p : A -> bool) (l l' : list A) :
  Permutation l l' -> Permutation (filter p l) (filter p l').
Proof.
  induction 1 as [|x l l' _ IH|x y l|l l' l'' _ IH1 _ IH2]; cbn.
  - constructor.
  - destruct (p x); [now constructor|exact IH].
  - destruct (p x), (p y); try apply Permutation_refl. apply perm_swap.
  - now apply perm_trans with (filter p l').
Qed.

Lemma valid_contracts_permutation (d d' : list ContractDetails) :
  Permutation d d' -> Permutation (valid_contracts d) (valid_contracts d').
Proof.
  intros H. unfold valid_contracts. apply filter_permutation.
  now apply Permutation_map.
Qed.

Lemma insert_by_month_with_token (t : string) (c : Contract)
  (l : list Contract) :
  with_token t (insert_by_month c l) = with_token t (c :: l).
Proof.
  unfold with_token. induction l as [|d rest IH]; [reflexivity|].
  cbn [insert_by_month].
  destruct (String.ltb (token d) (token c)) eqn:E; [|reflexivity].
  cbn [filter] in *. rewrite IH.
  destruct (String.eqb_spec (token c) t) as [Hc|Hc];
    destruct (String.eqb_spec (token d) t) as [Hd|Hd]; try reflexivity.
  exfalso. apply (ltb_irrefl_token _ _ E). congruence.
Qed.

Lemma sort_by_month_with_token (t : string) (l : list Contract) :
  with_token t (sort_by_month l) = with_token t l.
Proof.
  induction l as [|c l IH]; [reflexivity|].
  rewrite sort_by_month_cons, insert_by_month_with_token.
  unfold with_token in *. cbn [filter]. now rewrite IH.
Qed.

End FrontMonthFurther.

(** X4. When the valid contracts of an instrument carry pairwise distinct
    tokens, the front-month contract does not depend on the order in which
    the session lists the contracts: two listings that are permutations of
    each other give the same result. *)
Theorem X4_front_month_ignores_listing_order (ib ib' : IB)
  (info info' : SymbolInfo) :
  Permutation (details_of ib info) (details_of ib' info') ->
  NoDup (map token (valid_contracts (details_of ib info))) ->
  front_contract_of ib info = front_contract_of ib' info'.
Proof.
  intros Hperm Hnd. rewrite !front_contract_of_eq.
  pose proof (valid_contracts_permutation _ _ Hperm) as Hv.
  set (l := valid_contracts (details_of ib info)) in *.
  set (l' := valid_contracts (details_of ib' info')) in *.
  destruct (hd_error (sort_by_month l)) as [c|] eqn:E;
    destruct (hd_error (sort_by_month l')) as [c'|] eqn:E'.
  - apply hd_sort_by_month, smallest_of_first_smallest in E, E'.
    destruct E as [Hin Hmin], E' as [Hin' Hmin'].
    assert (Hc' : In c' l) by (apply (Permutation_in _ (Permutation_sym Hv));
                               exact Hin').
    assert (Hc : In c l') by (apply (Permutation_in _ Hv); exact Hin).
    f_equal. apply (same_token_same_contract l); try assumption.
    apply not_ltb_antisym; [now apply Hmin'|now apply Hmin].
  - exfalso. destruct l' as [|x l'0].
    + apply Permutation_sym, Permutation_nil in Hv. unfold l in *.
      rewrite Hv in E. discriminate.
    + destruct (hd_sort_by_month_some (x :: l'0)) as (y & Hy);
        [discriminate|congruence].
  - exfalso. destruct l as [|x l0].
    + apply Permutation_nil in Hv. rewrite Hv in E'. discriminate.
    + destruct (hd_sort_by_month_some (x :: l0)) as (y & Hy);
        [discriminate|congruence].
  - reflexivity.
Qed.

Lemma X4_front_month_ignores_listing_order_witness :
  Permutation
    (details_of (constant_session [] (sample_details "A")) (instrument "A"))
    (details_of (constant_session [] (rev (sample_details "A")))
       (instrument "A"))
  /\ front_contract_of (constant_session [] (sample_details "A"))
       (instrument "A")
     = front_contract_of (constant_session [] (rev (sample_details "A")))
         (instrument "A").
Proof.
  assert (H : Permutation
                (details_of (constant_session [] (sample_details "A"))
                   (instrument "A"))
                (details_of (constant_session [] (rev (sample_details "A")))
                   (instrument "A"))).
  { apply Permutation_rev. }
  split; [exact H|].
  apply (X4_front_month_ignores_listing_order _ _ _ _ H).
  apply distinct_NoDup. reflexivity.
Defined.

(** X5. Sorting the valid contracts by contract month rearranges them
    without adding or losing any, leaves them in ascending order of their
    tokens, and keeps contracts with the same token in the order they had:
    the sort is stable. *)
Theorem X5_sort_is_stable_sorted_permutation (l : list Contract) :
  Permutation l (sort_by_month l) /\
  StronglySorted month_le (sort_by_month l) /\
  (forall t, with_token t (sort_by_month l) = with_token t l) /\
  length (sort_by_month l) = length l.
Proof.
  split; [apply sort_by_month_permutation|].
  split; [apply sort_by_month_sorted|].
  split; [intros t; apply sort_by_month_with_token|].
  symmetry. apply Permutation_length, sort_by_month_permutation.
Qed.

(** ** The derived frame, further *)

Section DerivedFrame.

Lemma map_fst_combine_seq {A} (l : list A) (s : nat) :
  map fst (combine (seq s (length l)) l) = seq s (length l).
Proof.
  revert s. induction l as [|a l IH]; intros s; [reflexivity|].
  cbn. now rewrite IH.
Qed.

Lemma map_idx_with_indicators (vw mw : nat) (df : list Bar) :
  map idx (with_indicators vw mw df) = seq 0 (length df).
Proof.
  unfold with_indicators. rewrite map_map. cbn [idx].
  apply map_fst_combine_seq.
Qed.

Lemma seq_strongly_sorted (s n : nat) : StronglySorted lt (seq s n).
Proof.
  revert s. induction n as [|n IH]; intros s; cbn; constructor.
  - apply IH.
  - apply Forall_forall. intros x Hx. apply in_seq in Hx. lia.
Qed.

Lemma filter_keeps_sorted {A} (f : A -> nat) (p : A -> bool) (l : list A) :
  StronglySorted lt (map f l) -> StronglySorted lt (map f (filter p l)).
Proof.
  induction l as [|a l IH]; cbn; intros H; [constructor|].
  inversion H as [|? ? Hs Hall]; subst.
  destruct (p a); cbn; [|now apply IH].
  constructor; [now apply IH|].
  rewrite Forall_forall in *. intros x Hx. apply Hall.
  apply in_map_iff in Hx. destruct Hx as (y & <- & Hy).
  apply in_map. apply filter_In in Hy. tauto.
Qed.

Lemma sorted_within_length (l : list nat) (a b : nat) :
  StronglySorted lt l -> (forall x, In x l -> a <= x < b) ->
  length l <= b - a.
Proof.
  revert a. induction l as [|x l IH]; intros a Hs Hin; cbn; [lia|].
  inversion Hs as [|? ? Hs' Hall]; subst.
  pose proof (Hin x (or_introl eq_refl)) as Hx.
  assert (length l <= b - S x).
  { apply IH; [exact Hs'|]. intros y Hy. rewrite Forall_forall in Hall.
    specialize (Hall y Hy). specialize (Hin y (or_intror Hy)). lia. }
  lia.
Qed.

Lemma sorted_last_is_largest (l : list nat) (x d : nat) :
  StronglySorted lt l -> In x l -> x <= last l d.
Proof.
  revert x. induction l as [|y l IH]; intros x Hs Hin; [destruct Hin|].
  inversion Hs as [|? ? Hs' Hall]; subst.
  destruct l as [|z l'].
  - destruct Hin as [->|[]]. cbn. lia.
  - change (last (y :: z :: l') d) with (last (z :: l') d).
    destruct Hin as [->|Hin].
    + rewrite Forall_forall in Hall.
      assert (z <= last (z :: l') d) by (apply IH; [exact Hs'|now left]).
      specialize (Hall z (or_introl eq_refl)). lia.
    + now apply IH.
Qed.

Lemma last_cons_default {A} (l : list A) (a d : A) :
  last (a :: l) d = last l a.
Proof.
  revert a d. induction l as [|x l IH]; intros a d; [reflexivity|].
  change (last (a :: x :: l) d) with (last (x :: l) d).
  now rewrite !IH.
Qed.

Lemma last_in_cons {A} (l : list A) (a : A) : In (last l a) (a :: l).
Proof.
  revert a. induction l as [|x l IH]; intros a; [now left|].
  rewrite last_cons_default. right. apply IH.
Qed.

Lemma last_map {A B} (f : A -> B) (l : list A) (d : A) :
  last (map f l) (f d) = f (last l d).
Proof.
  revert d. induction l as [|x l IH]; intros d; [reflexivity|].
  cbn [map]. now rewrite !last_cons_default, IH.
Qed.

Lemma iloc_last_in (rows : list Row) (r : Row) :
  iloc_last rows = Some r ->
  In r rows /\ idx r = last (map idx rows) 0.
Proof.
  destruct rows as [|r0 rest]; [discriminate|]. cbn [iloc_last].
  intros H. injection H as <-. split; [apply last_in_cons|].
  cbn [map]. now rewrite last_cons_default, last_map.
Qed.

Lemma nth_map_combine {A B C} (f : A * B -> C) (l : list A) (l' : list B)
  (i : nat) (a : A) (b : B) (c : C) :
  i < length l -> i < length l' ->
  nth i (map f (combine l l')) c = f (nth i l a, nth i l' b).
Proof.
  revert l' i. induction l as [|x l IH]; intros [|y l'] [|i] Hl Hl';
    cbn in *; try lia; [reflexivity|].
  apply IH; lia.
Qed.

(** The return at a position after the first. *)
Lemma nth_pct_change (xs : list float) (i : nat) :
  S i < length xs ->
  nth (S i) (pct_change xs) PrimFloat.nan
  = (nth (S i) xs PrimFloat.nan / nth i xs PrimFloat.nan - 1)%float.
Proof.
  intros H. destruct xs as [|x later]; [cbn in H; lia|].
  cbn [pct_change nth]. cbn [length] in H.
  rewrite (nth_map_combine _ (x :: later) later i PrimFloat.nan
             PrimFloat.nan) by (cbn [length]; lia).
  reflexivity.
Qed.

Lemma key_of_with_indicators (vw mw : nat) (df : list Bar) :
  let closes := map (fun b => close (data b)) df in
  map key_of (with_indicators vw mw df)
  = map (fun i =>
           (i, nth i (pct_change closes) PrimFloat.nan,
            nth i (rolling_std vw (pct_change closes)) PrimFloat.nan,
            nth i (rolling_mean mw closes) PrimFloat.nan,
            nth i (np_where_gt closes (rolling_mean mw closes)) (-1)%Z,
            nth i closes PrimFloat.nan))
      (seq 0 (length df)).
Proof.
  intros closes. unfold with_indicators. fold closes.
  rewrite <- (map_fst_combine_seq df 0) at 2. rewrite !map_map.
  apply map_ext_in. intros [i b] Hin. apply in_combine_seq in Hin.
  destruct Hin as [_ Hn]. rewrite Nat.sub_0_r in Hn.
  unfold key_of, derived, row_close. cbn [idx bar return_ rolling_std_20
    MA200 signal fst snd]. f_equal. unfold closes.
  assert (Hlt : i < length df) by (apply nth_error_Some; congruence).
  rewrite (nth_indep _ PrimFloat.nan (close (data b)))
    by (now rewrite length_map).
  rewrite (map_nth (fun b => close (data b))).
  now rewrite (nth_error_nth _ _ _ Hn).
Qed.

Lemma row_has_nan_by_key (r r' : Row) :
  key_of r = key_of r' ->
  other_columns_clean (bar r) = true ->
  other_columns_clean (bar r') = true ->
  row_has_nan r = row_has_nan r'.
Proof.
  unfold key_of, derived, row_close, other_columns_clean, row_has_nan.
  intros H Hc Hc'. injection H as _ Hret Hstd Hma _ Hclose.
  cbn [existsb] in *. rewrite negb_true_iff, !orb_false_iff in Hc, Hc'.
  destruct Hc as (-> & -> & -> & -> & -> & _).
  destruct Hc' as (-> & -> & -> & -> & -> & _).
  now rewrite Hret, Hstd, Hma, Hclose.
Qed.

Lemma filter_by_key (l l' : list Row) :
  map key_of l = map key_of l' ->
  (forall r, In r l -> other_columns_clean (bar r) = true) ->
  (forall r, In r l' -> other_columns_clean (bar r) = true) ->
  map key_of (dropna l) = map key_of (dropna l').
Proof.
  revert l'. induction l as [|r l IH]; intros [|r' l'] Hk Hc Hc';
    try discriminate; [reflexivity|].
  cbn [map] in Hk.
  assert (Hr : key_of r = key_of r') by congruence.
  assert (Hl : map key_of l = map key_of l') by congruence.
  unfold dropna in *. cbn [filter].
  rewrite (row_has_nan_by_key r r' Hr
             (Hc r (or_introl eq_refl)) (Hc' r' (or_introl eq_refl))).
  destruct (row_has_nan r'); cbn [negb map].
  - apply IH; [exact Hl| |]; intros x Hx; [apply Hc|apply Hc']; now right.
  - rewrite Hr. f_equal.
    apply IH; [exact Hl| |]; intros x Hx; [apply Hc|apply Hc']; now right.
Qed.

Lemma bars_of_with_indicators (vw mw : nat) (df : list Bar) :
  map bar (with_indicators vw mw df) = df.
Proof.
  unfold with_indicators. rewrite map_map. cbn [bar].
  assert (H : forall (l : list Bar) s,
             map snd (combine (seq s (length l)) l) = l).
  { induction l as [|a l IH]; intros s; [reflexivity|]. cbn.
    now rewrite IH. }
  apply H.
Qed.

Lemma kept_rows_sorted (vw mw : nat) (df : list Bar) :
  StronglySorted lt (map idx (compute_indicators_with vw mw df)).
Proof.
  unfold compute_indicators_with, dropna. apply filter_keeps_sorted.
  rewrite map_idx_with_indicators. apply seq_strongly_sorted.
Qed.

Lemma iloc_last_is_latest (vw mw : nat) (df : list Bar) (latest : Row) :
  iloc_last (compute_indicators_with vw mw df) = Some latest ->
  In latest (compute_indicators_with vw mw df) /\
  forall r, In r (compute_indicators_with vw mw df) -> idx r <= idx latest.
Proof.
  intros Hl. destruct (iloc_last_in _ latest Hl) as [Hin Hidx].
  split; [exact Hin|]. intros r Hr. rewrite Hidx.
  apply sorted_last_is_largest; [apply kept_rows_sorted|now apply in_map].
Qed.

End DerivedFrame.

(** X6. The frame [compute_indicators] returns keeps the rows in the order
    of the input: its index labels are strictly increasing.  It has at most
    [length df - max vw (mw - 1)] rows, and the row [iloc[-1]] reads is the
    kept row with the largest index label, the most recent one. *)
Theorem X6_kept_rows_in_input_order (vw mw : nat) (df : list Bar) :
  let kept := compute_indicators_with vw mw df in
  StronglySorted lt (map idx kept) /\
  length kept <= length df - Nat.max vw (mw - 1) /\
  (forall latest,
      iloc_last kept = Some latest ->
      In latest kept /\ forall r, In r kept -> idx r <= idx latest).
Proof.
  intros kept. subst kept.
  split; [apply kept_rows_sorted|]. split.
  - rewrite <- (length_map idx).
    apply sorted_within_length; [apply kept_rows_sorted|].
    intros x Hx. apply in_map_iff in Hx. destruct Hx as (r & <- & Hr).
    destruct (kept_row_position vw mw df r Hr) as (Hn & Hv & Hm).
    assert (idx r < length df) by (apply nth_error_Some; congruence).
    lia.
  - apply iloc_last_is_latest.
Qed.

(** X7. The return of every kept row is its close divided by the close of
    the input row just before it, minus one; the first row of the input,
    which has no row before it, is never kept. *)
Theorem X7_return_of_kept_row (vw mw : nat) (df : list Bar) (r : Row) :
  In r (compute_indicators_with vw mw df) ->
  1 <= idx r /\
  exists prev,
    nth_error df (idx r - 1) = Some prev /\
    return_ r = (row_close r / close (data prev) - 1)%float.
Proof.
  intros Hin. apply in_compute_indicators_with in Hin.
  destruct Hin as [Hin Hnan].
  destruct (row_has_nan_false r Hnan) as (Hret & _ & _).
  apply in_with_indicators in Hin. destruct Hin as (i & b & Hn & ->).
  unfold row_close. cbn [idx bar return_] in *.
  assert (Hlt : i < length df) by (apply nth_error_Some; congruence).
  destruct i as [|i].
  - exfalso. destruct df as [|b0 df']; [cbn in Hlt; lia|].
    cbn in Hret. discriminate Hret.
  - split; [lia|]. replace (S i - 1) with i by lia.
    destruct (nth_error df i) as [prev|] eqn:Hp.
    + exists prev. split; [reflexivity|].
      rewrite nth_pct_change by (now rewrite length_map).
      rewrite !(nth_indep _ PrimFloat.nan (close (data b)))
        by (rewrite length_map; lia).
      rewrite !(map_nth (fun b => close (data b))).
      rewrite (nth_error_nth _ _ _ Hn), (nth_error_nth _ _ _ Hp).
      reflexivity.
    + apply nth_error_None in Hp. lia.
Qed.

Lemma X7_return_of_kept_row_witness :
  In tie_row (compute_indicators (attach_symbol "A" (flat_series 100 200)))
  /\ 1 <= idx tie_row.
Proof.
  assert (H : In tie_row
            (compute_indicators (attach_symbol "A" (flat_series 100 200)))).
  { vm_compute. left. reflexivity. }
  split; [exact H|].
  apply (X7_return_of_kept_row VOL_WINDOW MA_WINDOW _ _ H).
Defined.

(** X8. The derived columns are computed from the close column alone: two
    frames with the same closes get the same index labels, returns,
    volatilities, moving averages and signals, whatever their dates, other
    price columns, volumes and symbols; and when no other column of either
    frame holds a NaN, the same rows are kept. *)
Theorem X8_derived_columns_from_closes (vw mw : nat) (df df' : list Bar) :
  map (fun b => close (data b)) df = map (fun b => close (data b)) df' ->
  map derived (with_indicators vw mw df)
  = map derived (with_indicators vw mw df') /\
  (forallb other_columns_clean df = true ->
   forallb other_columns_clean df' = true ->
   map derived (compute_indicators_with vw mw df)
   = map derived (compute_indicators_with vw mw df')).
Proof.
  intros Hc.
  assert (Hlen : length df = length df').
  { apply (f_equal (@length float)) in Hc. now rewrite !length_map in Hc. }
  assert (Hk : map key_of (with_indicators vw mw df)
               = map key_of (with_indicators vw mw df')).
  { rewrite !key_of_with_indicators. cbv zeta. now rewrite Hc, Hlen. }
  assert (Hd : forall l l', map key_of l = map key_of l' ->
                            map derived l = map derived l').
  { intros l l' H. apply (f_equal (map fst)) in H.
    now rewrite !map_map in H. }
  split; [now apply Hd|].
  intros Hclean Hclean'. apply Hd. unfold compute_indicators_with.
  apply filter_by_key; [exact Hk| |].
  - intros r Hr. rewrite forallb_forall in Hclean. apply Hclean.
    rewrite <- (bars_of_with_indicators vw mw df). now apply in_map.
  - intros r Hr. rewrite forallb_forall in Hclean'. apply Hclean'.
    rewrite <- (bars_of_with_indicators vw mw df'). now apply in_map.
Qed.

Lemma X8_derived_columns_from_closes_witness :
  map (fun b => close (data b)) (attach_symbol "A" (zigzag_series 205))
  = map (fun b => close (data b)) (attach_symbol "B" (same_day_series 205))
  /\ map derived (compute_indicators (attach_symbol "A" (zigzag_series 205)))
     = map derived
         (compute_indicators (attach_symbol "B" (same_day_series 205))).
Proof.
  assert (H : map (fun b => close (data b))
                (attach_symbol "A" (zigzag_series 205))
              = map (fun b => close (data b))
                  (attach_symbol "B" (same_day_series 205))).
  { vm_compute. reflexivity. }
  split; [exact H|].
  apply (X8_derived_columns_from_closes VOL_WINDOW MA_WINDOW _ _ H);
    vm_compute; reflexivity.
Defined.

(** ** The map of snapshots, further *)

Section SnapshotMap.

Lemma dict_set_keys (k : string) (v : SymbolData) (m : Dict) :
  map fst (dict_set k v m)
  = if existsb (String.eqb k) (map fst m) then map fst m
    else map fst m ++ [k].
Proof.
  induction m as [|[k' v'] m IH]; [reflexivity|]. cbn.
  rewrite (String.eqb_sym k k').
  destruct (String.eqb_spec k' k) as [->|NE]; cbn; [reflexivity|].
  rewrite IH. now destruct (existsb (String.eqb k) (map fst m)).
Qed.

Lemma existsb_eqb_in (k : string) (l : list string) :
  existsb (String.eqb k) l = true <-> In k l.
Proof.
  rewrite existsb_exists. split.
  - intros (x & Hx & E). apply String.eqb_eq in E. now subst.
  - intros H. exists k. split; [exact H|apply String.eqb_refl].
Qed.

Lemma dict_set_keys_nodup (k : string) (v : SymbolData) (m : Dict) :
  NoDup (map fst m) -> NoDup (map fst (dict_set k v m)).
Proof.
  intros H. rewrite dict_set_keys.
  destruct (existsb (String.eqb k) (map fst m)) eqn:E; [exact H|].
  apply NoDup_app; [exact H|repeat constructor; intros []|].
  intros x Hx [<-|[]]. apply existsb_eqb_in in Hx. congruence.
Qed.

Lemma dict_set_has_key (k : string) (v : SymbolData) (m : Dict) :
  In k (map fst (dict_set k v m)).
Proof.
  rewrite dict_set_keys.
  destruct (existsb (String.eqb k) (map fst m)) eqn:E.
  - now apply existsb_eqb_in.
  - apply in_or_app. right. now left.
Qed.

Lemma dict_set_keeps_keys (k k' : string) (v : SymbolData) (m : Dict) :
  In k' (map fst m) -> In k' (map fst (dict_set k v m)).
Proof.
  intros H. rewrite dict_set_keys.
  destruct (existsb (String.eqb k) (map fst m)); [exact H|].
  apply in_or_app. now left.
Qed.

Lemma dict_set_entries (k : string) (v : SymbolData) (m : Dict)
  (kv : string * SymbolData) :
  In kv (dict_set k v m) -> kv = (k, v) \/ In kv m.
Proof.
  induction m as [|[k' v'] m IH]; cbn.
  - intros [<-|[]]. now left.
  - destruct (String.eqb k' k).
    + intros [<-|H]; [now left|right; now right].
    + intros [<-|H]; [right; now left|].
      destruct (IH H) as [->|H']; [now left|right; now right].
Qed.

Lemma dict_set_length (k : string) (v : SymbolData) (m : Dict) :
  length (dict_set k v m) <= S (length m).
Proof.
  induction m as [|[k' v'] m IH]; cbn; [lia|].
  destruct (String.eqb k' k); cbn; lia.
Qed.

Lemma dict_get_set_same (k : string) (v : SymbolData) (m : Dict) :
  dict_get k (dict_set k v m) = Some v.
Proof.
  induction m as [|[k' v'] m IH]; cbn; [now rewrite String.eqb_refl|].
  destruct (String.eqb k' k) eqn:E; cbn.
  - now rewrite String.eqb_refl.
  - now rewrite E.
Qed.

Lemma dict_get_set_other (k k' : string) (v : SymbolData) (m : Dict) :
  k' <> k -> dict_get k' (dict_set k v m) = dict_get k' m.
Proof.
  intros NE. induction m as [|[k0 v0] m IH]; cbn.
  - destruct (String.eqb_spec k k'); [congruence|reflexivity].
  - destruct (String.eqb_spec k0 k) as [->|NE0]; cbn.
    + destruct (String.eqb_spec k k'); [congruence|reflexivity].
    + destruct (String.eqb k0 k'); [reflexivity|exact IH].
Qed.

Lemma dict_get_by_keys (m : Dict) :
  NoDup (map fst m) ->
  map (fun k => dict_get k m) (map fst m) = map (fun kv => Some (snd kv)) m.
Proof.
  induction m as [|[k v] m IH]; [reflexivity|]. cbn [map fst snd].
  intros Hnd. inversion Hnd as [|? ? Hnotin Hnd']; subst.
  cbn [dict_get]. rewrite String.eqb_refl. f_equal.
  rewrite <- (IH Hnd'). apply map_ext_in. intros k' Hk'.
  destruct (String.eqb_spec k k') as [->|_]; [contradiction|reflexivity].
Qed.

Lemma fetch_loop_keys_nodup (ib : IB) (universe : list SymbolInfo)
  (m : Dict) :
  NoDup (map fst m) -> NoDup (map fst (snd (fetch_loop ib universe m))).
Proof.
  revert m. induction universe as [|info rest IH]; intros m H; [exact H|].
  cbn [fetch_loop]. rewrite snd_bind. apply IH. rewrite fetch_step_map.
  destruct (snapshot_of ib info); [now apply dict_set_keys_nodup|exact H].
Qed.

Lemma fetch_loop_keeps_keys (ib : IB) (universe : list SymbolInfo)
  (m : Dict) (k : string) :
  In k (map fst m) -> In k (map fst (snd (fetch_loop ib universe m))).
Proof.
  revert m. induction universe as [|info rest IH]; intros m H; [exact H|].
  cbn [fetch_loop]. rewrite snd_bind. apply IH. rewrite fetch_step_map.
  destruct (snapshot_of ib info); [now apply dict_set_keeps_keys|exact H].
Qed.

Lemma fetch_loop_entries (ib : IB) (universe : list SymbolInfo) (m : Dict)
  (kv : string * SymbolData) :
  In kv (snd (fetch_loop ib universe m)) ->
  In kv m \/
  exists info,
    In info universe /\ symbol info = fst kv /\
    snapshot_of ib info = Some (snd kv).
Proof.
  revert m. induction universe as [|info rest IH]; intros m H;
    [now left|].
  cbn [fetch_loop] in H. rewrite snd_bind, fetch_step_map in H.
  destruct (IH _ H) as [Hin|(info' & Hin' & Hs & Hd)].
  - destruct (snapshot_of ib info) as [d|] eqn:E; [|now left].
    destruct (dict_set_entries _ _ _ _ Hin) as [->|Hm]; [|now left].
    right. exists info. cbn. repeat split; [now left|exact E].
  - right. exists info'. repeat split; [now right|exact Hs|exact Hd].
Qed.

Lemma fetch_loop_length (ib : IB) (universe : list SymbolInfo) (m : Dict) :
  length (snd (fetch_loop ib universe m)) <= length m + length universe.
Proof.
  revert m. induction universe as [|info rest IH]; intros m; cbn [fetch_loop].
  - cbn. lia.
  - rewrite snd_bind. specialize (IH (snd (fetch_step ib info m))).
    rewrite fetch_step_map in *. cbn [length].
    destruct (snapshot_of ib info).
    + pose proof (dict_set_length (symbol info) s m). lia.
    + lia.
Qed.

Lemma fetch_loop_has_key (ib : IB) (universe : list SymbolInfo) (m : Dict)
  (info : SymbolInfo) :
  In info universe -> snapshot_of ib info <> None ->
  In (symbol info) (map fst (snd (fetch_loop ib universe m))).
Proof.
  revert m. induction universe as [|x rest IH]; intros m Hin Hs;
    [destruct Hin|].
  cbn [fetch_loop]. rewrite snd_bind, fetch_step_map.
  destruct Hin as [->|Hin]; [|now apply IH].
  destruct (snapshot_of ib info) as [d|]; [|congruence].
  apply fetch_loop_keeps_keys, dict_set_has_key.
Qed.

Lemma find_symbol_of_universe (universe : list SymbolInfo)
  (info : SymbolInfo) :
  In info universe ->
  exists found,
    find (fun x => String.eqb (symbol x) (symbol info)) universe
    = Some found /\
    In found universe /\ symbol found = symbol info.
Proof.
  intros Hin.
  destruct (find (fun x => String.eqb (symbol x) (symbol info)) universe)
    as [found|] eqn:E.
  - exists found. apply find_some in E. destruct E as [Hf E].
    apply String.eqb_eq in E. auto.
  - exfalso. pose proof (find_none _ _ E info Hin) as H. cbn in H.
    rewrite String.eqb_refl in H. discriminate.
Qed.

(** A snapshot is read off the last row of a non-empty derived frame. *)
Lemma snapshot_of_cases (ib : IB) (info : SymbolInfo) (d : SymbolData) :
  snapshot_of ib info = Some d ->
  exists b bars latest,
    reqHistoricalData ib (cont_fut_of info) = Returned (b :: bars) /\
    sd_df d = compute_indicators (attach_symbol (symbol info) (b :: bars)) /\
    iloc_last (sd_df d) = Some latest /\
    sd_signal d = signal latest /\
    sd_vol d = rolling_std_20 latest.
Proof.
  unfold snapshot_of. rewrite get_continuous_data_cases.
  destruct (reqHistoricalData ib (cont_fut_of info)) as [[|b bars]|e];
    cbn [snd attach_symbol map]; try discriminate.
  destruct (iloc_last _) as [latest|] eqn:E; [|discriminate].
  intros H. injection H as <-. exists b, bars, latest. cbn [sd_df sd_signal
    sd_vol]. repeat split. exact E.
Qed.

End SnapshotMap.

(** X9. Whatever the universe, also with a symbol listed twice, the keys of
    the map of snapshots are pairwise distinct and there are at most as many
    as instruments; every entry holds the snapshot of an instrument of the
    universe that carries the entry's symbol; every instrument that has a
    snapshot has its symbol among the keys; and the lookup of the
    instrument by symbol that the order loop makes finds one for every
    key. *)
Theorem X9_map_of_snapshots (universe : list SymbolInfo) (ib : IB) :
  let m := fetched_map universe ib in
  NoDup (map fst m) /\
  length m <= length universe /\
  (forall sym d,
      In (sym, d) m ->
      exists info,
        In info universe /\ symbol info = sym /\
        snapshot_of ib info = Some d) /\
  (forall info,
      In info universe -> snapshot_of ib info <> None ->
      In (symbol info) (map fst m)) /\
  (forall sym,
      In sym (map fst m) ->
      exists found,
        find (fun x => String.eqb (symbol x) sym) universe = Some found /\
        In found universe /\ symbol found = sym).
Proof.
  intros m. subst m. unfold fetched_map.
  assert (Hent : forall sym d,
             In (sym, d) (snd (fetch_loop ib universe [])) ->
             exists info,
               In info universe /\ symbol info = sym /\
               snapshot_of ib info = Some d).
  { intros sym d H.
    destruct (fetch_loop_entries ib universe [] (sym, d) H)
      as [[]|(info & Hin & Hs & Hd)].
    now exists info. }
  split; [apply fetch_loop_keys_nodup; constructor|].
  split; [apply (fetch_loop_length ib universe [])|].
  split; [exact Hent|].
  split; [intros info; apply fetch_loop_has_key|].
  intros sym Hsym. apply in_map_iff in Hsym.
  destruct Hsym as ([k d] & <- & Hkd). cbn [fst].
  destruct (Hent k d Hkd) as (info & Hin & <- & _).
  now apply find_symbol_of_universe.
Qed.

(** X10. A snapshot exists only for an instrument whose request returned
    at least [MA_WINDOW = 200] bars.  Its frame is not empty, its signal and
    volatility are those of the most recent kept row, that volatility is not
    NaN and that signal is +1 or -1. *)
Theorem X10_snapshot_is_complete (ib : IB) (info : SymbolInfo)
  (d : SymbolData) :
  snapshot_of ib info = Some d ->
  (exists bars,
      reqHistoricalData ib (cont_fut_of info) = Returned bars /\
      MA_WINDOW <= length bars) /\
  (exists latest,
      iloc_last (sd_df d) = Some latest /\
      In latest (sd_df d) /\
      (forall r, In r (sd_df d) -> idx r <= idx latest) /\
      sd_signal d = signal latest /\
      sd_vol d = rolling_std_20 latest) /\
  PrimFloat.is_nan (sd_vol d) = false /\
  (sd_signal d = 1 \/ sd_signal d = -1)%Z.
Proof.
  intros H.
  destruct (snapshot_of_cases ib info d H)
    as (b & bars & latest & Hreq & Hdf & Hlast & Hsig & Hvol).
  rewrite Hdf in Hlast |- *. unfold compute_indicators in *.
  destruct (iloc_last_is_latest _ _ _ latest Hlast) as [Hin Hmax].
  destruct (kept_row_position _ _ _ latest Hin) as (Hn & _ & Hm).
  pose proof Hin as Hrow. apply in_compute_indicators_with in Hrow.
  destruct Hrow as [Hrow Hnan].
  destruct (row_has_nan_false latest Hnan) as (_ & Hstd & _).
  apply in_with_indicators in Hrow. destruct Hrow as (i & b0 & _ & Hshape).
  split; [|split; [|split]].
  - exists (b :: bars). split; [exact Hreq|].
    assert (Hlt : idx latest
                  < length (attach_symbol (symbol info) (b :: bars)))
      by (apply nth_error_Some; congruence).
    unfold attach_symbol in Hlt. rewrite length_map in Hlt.
    unfold MA_WINDOW in *. lia.
  - exists latest. repeat split; assumption.
  - now rewrite Hvol.
  - rewrite Hsig, Hshape. cbn [signal]. destruct (fgt _ _); [now left|now right].
Qed.

Lemma X10_snapshot_is_complete_witness :
  (exists d, snapshot_of one_bad_feed (instrument "A") = Some d
             /\ PrimFloat.is_nan (sd_vol d) = false).
Proof.
  destruct (snapshot_of one_bad_feed (instrument "A")) as [d|] eqn:E.
  - exists d. split; [reflexivity|].
    apply (X10_snapshot_is_complete one_bad_feed (instrument "A") d E).
  - vm_compute in E. discriminate E.
Defined.

(** ** The phases of a run *)

Section Phases.

Lemma hist_requests_app (a b : list Event) :
  hist_requests (a ++ b) = hist_requests a ++ hist_requests b.
Proof. unfold hist_requests. apply flat_map_app. Qed.

Lemma detail_requests_app (a b : list Event) :
  detail_requests (a ++ b) = detail_requests a ++ detail_requests b.
Proof. unfold detail_requests. apply flat_map_app. Qed.

Lemma fetch_events_no_detail_request (tr : list Event) :
  Forall fetch_event tr -> detail_requests tr = [].
Proof.
  induction 1 as [|e tr He _ IH]; [reflexivity|].
  change (e :: tr) with ([e] ++ tr). rewrite detail_requests_app, IH.
  destruct e; try reflexivity; destruct He.
Qed.

Lemma order_events_no_hist_request (tr : list Event) :
  Forall order_event tr -> hist_requests tr = [].
Proof.
  induction 1 as [|e tr He _ IH]; [reflexivity|].
  change (e :: tr) with ([e] ++ tr). rewrite hist_requests_app, IH.
  destruct e; try reflexivity; destruct He.
Qed.

Lemma order_events_no_sleep (tr : list Event) :
  Forall order_event tr -> filter is_sleep tr = [].
Proof.
  induction 1 as [|e tr He _ IH]; [reflexivity|]. cbn [filter]. rewrite IH.
  destruct e; try reflexivity; destruct He.
Qed.

Lemma fetch_events_no_sleep (tr : list Event) :
  Forall fetch_event tr -> filter is_sleep tr = [].
Proof.
  induction 1 as [|e tr He _ IH]; [reflexivity|]. cbn [filter]. rewrite IH.
  destruct e; try reflexivity; destruct He.
Qed.

Lemma fetch_step_hist_requests (ib : IB) (info : SymbolInfo) (m : Dict) :
  hist_requests (fst (fetch_step ib info m)) = [cont_fut_of info].
Proof.
  unfold fetch_step. rewrite fst_bind, hist_requests_app.
  rewrite get_continuous_data_cases.
  destruct (reqHistoricalData ib (cont_fut_of info)) as [[|b bars]|e];
    try reflexivity.
  cbn [snd fst attach_symbol map]. destruct (iloc_last _); reflexivity.
Qed.

Lemma fetch_loop_hist_requests (ib : IB) (universe : list SymbolInfo)
  (m : Dict) :
  hist_requests (fst (fetch_loop ib universe m)) = map cont_fut_of universe.
Proof.
  revert m. induction universe as [|info rest IH]; intros m; [reflexivity|].
  cbn [fetch_loop map]. rewrite fst_bind, hist_requests_app.
  now rewrite fetch_step_hist_requests, IH.
Qed.

Lemma get_front_month_contract_requests (ib : IB) (info : SymbolInfo) :
  detail_requests (fst (get_front_month_contract ib info))
  = [undated_of info].
Proof.
  unfold get_front_month_contract. fold (undated_of info).
  rewrite fst_bind. cbv zeta.
  destruct (reqContractDetails ib (undated_of info)) as [|d details];
    [reflexivity|].
  destruct (valid_contracts (d :: details)); reflexivity.
Qed.

Lemma order_step_orders_for (universe : list SymbolInfo) (ib : IB)
  (item : string * SymbolData) :
  orders_of (fst (order_step universe ib item)) = order_for universe ib item.
Proof.
  unfold order_step, order_for.
  destruct (find _ universe) as [info|]; [|reflexivity].
  rewrite fst_bind, orders_of_app.
  rewrite (proj2 (get_front_month_contract_events ib info)).
  unfold front_contract_of.
  destruct (snd (get_front_month_contract ib info)); reflexivity.
Qed.

Lemma order_loop_orders_for (universe : list SymbolInfo) (ib : IB)
  (items : Dict) :
  orders_of (fst (order_loop universe ib items))
  = flat_map (order_for universe ib) items.
Proof.
  induction items as [|item rest IH]; [reflexivity|].
  cbn [order_loop flat_map]. rewrite fst_bind, orders_of_app.
  now rewrite order_step_orders_for, IH.
Qed.

Lemma order_step_detail_requests (universe : list SymbolInfo) (ib : IB)
  (item : string * SymbolData) :
  detail_requests (fst (order_step universe ib item))
  = match find (fun x => String.eqb (symbol x) (fst item)) universe with
    | Some info => [undated_of info]
    | None => []
    end.
Proof.
  unfold order_step. destruct (find _ universe) as [info|]; [|reflexivity].
  rewrite fst_bind, detail_requests_app, get_front_month_contract_requests.
  destruct (snd (get_front_month_contract ib info)); reflexivity.
Qed.

Lemma order_loop_detail_symbols (universe : list SymbolInfo) (ib : IB)
  (items : Dict) :
  (forall sym, In sym (map fst items) ->
     exists found,
       find (fun x => String.eqb (symbol x) sym) universe = Some found /\
       In found universe /\ symbol found = sym) ->
  map c_symbol (detail_requests (fst (order_loop universe ib items)))
  = map fst items /\
  Forall (fun c => exists info, In info universe /\ c = undated_of info)
    (detail_requests (fst (order_loop universe ib items))).
Proof.
  induction items as [|item rest IH]; intros Hfind;
    [split; [reflexivity|constructor]|].
  cbn [order_loop]. rewrite fst_bind, detail_requests_app, map_app.
  rewrite order_step_detail_requests.
  destruct (Hfind (fst item) (or_introl eq_refl))
    as (found & -> & Hin & Hsym).
  destruct IH as [IH1 IH2].
  { intros sym Hs. apply Hfind. now right. }
  split.
  - cbn [map app]. rewrite IH1. unfold undated_of, Future. cbn [c_symbol].
    now rewrite Hsym.
  - cbn [app]. constructor; [now exists found|exact IH2].
Qed.

Lemma length_order_for (universe : list SymbolInfo) (ib : IB)
  (items : Dict) :
  length (flat_map (order_for universe ib) items) <= length items.
Proof.
  induction items as [|item rest IH]; [cbn; lia|].
  cbn [flat_map]. rewrite length_app. cbn [length].
  assert (length (order_for universe ib item) <= 1); [|lia].
  unfold order_for. destruct (find _ universe) as [info|]; [|cbn; lia].
  destruct (front_contract_of ib info); cbn; lia.
Qed.

Lemma gate_trace_requests (universe : list SymbolInfo) (w : World) (ib : IB)
  (m : Dict) :
  hist_requests (gate_trace universe w ib m) = [] /\
  detail_requests (gate_trace universe w ib m)
  = (if gates_open w m
     then detail_requests (fst (order_loop universe ib m)) else []) /\
  orders_of (gate_trace universe w ib m)
  = (if gates_open w m then flat_map (order_for universe ib) m else []).
Proof.
  unfold gate_trace, gates_open. destruct m as [|kv m].
  - now destruct (is_rebalance_day_of w && is_volatile_of []).
  - destruct (is_rebalance_day_of w && is_volatile_of (kv :: m)).
    + rewrite !hist_requests_app, !detail_requests_app, !orders_of_app.
      rewrite (order_events_no_hist_request _ (order_loop_events _ _ _)).
      rewrite order_loop_orders_for. cbn. now rewrite !app_nil_r.
    + repeat split.
Qed.

(** The gate phase up to the pause that ends the order phase. *)
Lemma gate_trace_sleep (universe : list SymbolInfo) (w : World) (ib : IB)
  (m : Dict) :
  match m with
  | [] => filter is_sleep (gate_trace universe w ib m) = []
  | _ =>
      if gates_open w m
      then exists before,
             gate_trace universe w ib m = before ++ [Sleep 5; Disconnect]
             /\ filter is_sleep before = []
      else filter is_sleep (gate_trace universe w ib m) = []
  end.
Proof.
  unfold gate_trace, gates_open. destruct m as [|kv m]; [reflexivity|].
  destruct (is_rebalance_day_of w && is_volatile_of (kv :: m));
    [|reflexivity].
  exists ([Printed (LogAvgVol (avg_vol_of (kv :: m)));
           Printed (LogVolCheck (is_volatile_of (kv :: m)) VOL_THRESHOLD);
           Printed LogPlacingOrders]
          ++ fst (order_loop universe ib (kv :: m))).
  split.
  - cbn [app]. now rewrite <- !app_assoc.
  - cbn [app filter is_sleep].
    apply (order_events_no_sleep _ (order_loop_events _ _ _)).
Qed.

End Phases.

(** X11. In a run that connects, the bars of every instrument of the
    universe are requested, one request each in the order of the universe,
    whatever the requests before it returned; and all of them come before
    the gates are evaluated: the part of the trace that holds them places no
    order and asks for no contract details, and the part after it requests
    no bars. *)
Theorem X11_fetch_completes_before_gate (universe : list SymbolInfo)
  (w : World) (paper : bool) :
  isConnected (session w) = true ->
  let out := run_mlm_strategy_on universe w paper in
  hist_requests (fst out) = map cont_fut_of universe /\
  exists fetched gated,
    fst out = connect_trace paper ++ fetched ++ gated /\
    hist_requests fetched = map cont_fut_of universe /\
    orders_of fetched = [] /\
    detail_requests fetched = [] /\
    hist_requests gated = [].
Proof.
  intros Hc out. subst out. rewrite (run_eq universe w paper Hc). cbn [fst].
  pose proof (fetch_loop_events (session w) universe []) as Hev.
  pose proof (gate_trace_requests universe w (session w)
                (fetched_map universe (session w))) as (Hg & _ & _).
  split.
  - rewrite !hist_requests_app, Hg, fetch_loop_hist_requests.
    destruct paper; cbn; now rewrite app_nil_r.
  - exists (fst (fetch_loop (session w) universe [])),
      (gate_trace universe w (session w) (fetched_map universe (session w))).
    split; [reflexivity|]. split; [apply fetch_loop_hist_requests|].
    split; [now apply fetch_events_no_order|].
    split; [now apply fetch_events_no_detail_request|exact Hg].
Qed.

Lemma X11_fetch_completes_before_gate_witness :
  isConnected (session (on_day 25 one_bad_feed)) = true
  /\ hist_requests
       (fst (run_mlm_strategy_on four_instruments (on_day 25 one_bad_feed)
               true))
     = map cont_fut_of four_instruments.
Proof.
  split; [reflexivity|].
  apply (X11_fetch_completes_before_gate four_instruments
           (on_day 25 one_bad_feed) true).
  reflexivity.
Defined.

(** X12. Contract details are requested only in the order phase: a run
    whose gates are closed asks for none.  With the gates open there is
    exactly one request per entry of the map of snapshots, in the order of
    the entries, each for the undated future of an instrument of the
    universe with the entry's symbol: the lookup by symbol never fails. *)
Theorem X12_details_requested_per_entry (universe : list SymbolInfo)
  (w : World) (paper : bool) :
  isConnected (session w) = true ->
  let m := fetched_map universe (session w) in
  let out := run_mlm_strategy_on universe w paper in
  (gates_open w m = false -> detail_requests (fst out) = []) /\
  (gates_open w m = true ->
   map c_symbol (detail_requests (fst out)) = map fst m /\
   Forall (fun c => exists info, In info universe /\ c = undated_of info)
     (detail_requests (fst out))).
Proof.
  intros Hc m out. subst out. rewrite (run_eq universe w paper Hc).
  cbn [fst]. rewrite !detail_requests_app.
  rewrite (fetch_events_no_detail_request _ (fetch_loop_events _ _ _)).
  destruct (gate_trace_requests universe w (session w) m) as (_ & Hd & _).
  fold m. rewrite Hd.
  assert (Hconn : detail_requests (connect_trace paper) = [])
    by (now destruct paper).
  rewrite Hconn. cbn [app]. split.
  - intros ->. reflexivity.
  - intros ->. apply order_loop_detail_symbols.
    subst m. unfold fetched_map. intros sym Hsym.
    apply in_map_iff in Hsym. destruct Hsym as ([k d] & <- & Hkd).
    destruct (fetch_loop_entries (session w) universe [] (k, d) Hkd)
      as [[]|(info & Hin & <- & _)].
    now apply find_symbol_of_universe.
Qed.

Lemma X12_details_requested_per_entry_witness :
  isConnected (session (on_day 24 one_bad_feed)) = true
  /\ (gates_open (on_day 24 one_bad_feed)
        (fetched_map four_instruments (session (on_day 24 one_bad_feed)))
      = false ->
      detail_requests
        (fst (run_mlm_strategy_on four_instruments (on_day 24 one_bad_feed)
                true))
      = []).
Proof.
  split; [reflexivity|].
  apply (X12_details_requested_per_entry four_instruments
           (on_day 24 one_bad_feed) true).
  reflexivity.
Defined.

(** X13. Whatever the universe, the orders of a run that connects are, when
    both gates are open, the orders of the entries of the map of snapshots
    in their order, at most one per entry, and none otherwise; so a run
    never places more orders than the map has entries, nor than the
    universe has instruments. *)
Theorem X13_at_most_one_order_per_entry (universe : list SymbolInfo)
  (w : World) (paper : bool) :
  isConnected (session w) = true ->
  let m := fetched_map universe (session w) in
  let out := run_mlm_strategy_on universe w paper in
  orders_of (fst out)
  = (if gates_open w m
     then flat_map (order_for universe (session w)) m else []) /\
  length (orders_of (fst out)) <= length m /\
  length m <= length universe.
Proof.
  intros Hc m out. subst out. rewrite (run_orders universe w paper Hc).
  destruct (gate_trace_requests universe w (session w) m) as (_ & _ & Ho).
  fold m. rewrite Ho. split; [reflexivity|]. split.
  - destruct (gates_open w m); [apply length_order_for|cbn; lia].
  - subst m. apply (fetch_loop_length (session w) universe []).
Qed.

Lemma X13_at_most_one_order_per_entry_witness :
  isConnected (session (on_day 25 one_bad_feed)) = true
  /\ length
       (orders_of
          (fst (run_mlm_strategy_on mlm_universe (on_day 25 one_bad_feed)
                  true)))
     <= length (fetched_map mlm_universe (session (on_day 25 one_bad_feed))).
Proof.
  split; [reflexivity|].
  exact (proj1 (proj2 (X13_at_most_one_order_per_entry mlm_universe
                         (on_day 25 one_bad_feed) true eq_refl))).
Defined.

(** X14. Every order a run places is a market order for exactly
    [CONTRACT_SIZE = 1] contract, placed with both gates open, on the
    front-month contract of an instrument of the universe whose symbol has a
    snapshot in the map; that contract carries a token of six characters or
    more; and the order buys when the snapshot's signal is 1 and sells
    otherwise. *)
Theorem X14_every_order (universe : list SymbolInfo) (w : World)
  (paper : bool) (c : Contract) (o : Order) :
  isConnected (session w) = true ->
  In (c, o) (orders_of (fst (run_mlm_strategy_on universe w paper))) ->
  let m := fetched_map universe (session w) in
  totalQuantity o = 1%Z /\
  gates_open w m = true /\
  has_valid_month c = true /\
  exists sym d info,
    In (sym, d) m /\
    In info universe /\ symbol info = sym /\
    front_contract_of (session w) info = Some c /\
    action o = (if (sd_signal d =? 1)%Z then BUY else SELL).
Proof.
  intros Hc Hin m.
  rewrite (run_orders universe w paper Hc) in Hin.
  destruct (gate_trace_requests universe w (session w) m) as (_ & _ & Ho).
  fold m in Hin. rewrite Ho in Hin.
  destruct (gates_open w m) eqn:Hg; [|destruct Hin].
  apply in_flat_map in Hin. destruct Hin as ([sym d] & Hitem & Hord).
  unfold order_for in Hord. cbn [fst snd] in Hord.
  destruct (find (fun x => String.eqb (symbol x) sym) universe)
    as [info|] eqn:Hfind; [|destruct Hord].
  destruct (front_contract_of (session w) info) as [c'|] eqn:Hfront;
    [|destruct Hord].
  destruct Hord as [Heq|[]]. injection Heq as <- <-.
  apply find_some in Hfind. destruct Hfind as [Hu Hsym].
  apply String.eqb_eq in Hsym.
  split; [reflexivity|]. split; [reflexivity|]. split.
  - pose proof Hfront as Hv. rewrite front_contract_of_eq in Hv.
    apply hd_sort_by_month, smallest_of_first_smallest in Hv.
    destruct Hv as [Hv _]. apply in_valid_contracts in Hv. tauto.
  - exists sym, d, info. repeat split; assumption.
Qed.

Lemma X14_every_order_witness :
  isConnected (session (on_day 25 one_bad_feed)) = true
  /\ In (contract (listed "A" "202312" 3), MarketOrder BUY 1)
       (orders_of
          (fst (run_mlm_strategy_on four_instruments (on_day 25 one_bad_feed)
                  true)))
  /\ has_valid_month (contract (listed "A" "202312" 3)) = true.
Proof.
  assert (H : In (contract (listed "A" "202312" 3), MarketOrder BUY 1)
                (orders_of
                   (fst (run_mlm_strategy_on four_instruments
                           (on_day 25 one_bad_feed) true)))).
  { vm_compute. left. reflexivity. }
  split; [reflexivity|]. split; [exact H|].
  apply (X14_every_order four_instruments (on_day 25 one_bad_feed) true
           _ _ eq_refl H).
Defined.

(** X15. A run pauses, for 5 seconds, exactly when it enters the order
    phase, whether or not an order was placed there: the pause is then the
    last thing before the disconnect and the only one.  A run that stops
    for want of data or finds a gate closed does not pause. *)
Theorem X15_pause_ends_the_order_phase (universe : list SymbolInfo)
  (w : World) (paper : bool) :
  isConnected (session w) = true ->
  let m := fetched_map universe (session w) in
  let out := run_mlm_strategy_on universe w paper in
  (m <> [] -> gates_open w m = true ->
   exists before,
     fst out = before ++ [Sleep 5; Disconnect] /\
     filter is_sleep before = []) /\
  (m = [] \/ gates_open w m = false -> filter is_sleep (fst out) = []).
Proof.
  intros Hc m out. subst out. rewrite (run_eq universe w paper Hc).
  cbn [fst]. pose proof (gate_trace_sleep universe w (session w) m) as Hs.
  fold m.
  assert (Hconn : filter is_sleep (connect_trace paper) = [])
    by (now destruct paper).
  pose proof (fetch_events_no_sleep _
                (fetch_loop_events (session w) universe [])) as Hf.
  split.
  - intros Hm Hg. destruct m as [|kv m']; [congruence|].
    rewrite Hg in Hs. destruct Hs as (before & -> & Hb).
    exists (connect_trace paper
            ++ fst (fetch_loop (session w) universe []) ++ before).
    split; [now rewrite <- !app_assoc|].
    now rewrite !filter_app, Hconn, Hf, Hb.
  - intros Hclosed. rewrite !filter_app, Hconn, Hf. cbn [app].
    destruct m as [|kv m']; [exact Hs|].
    destruct Hclosed as [Hm|Hg]; [discriminate|]. now rewrite Hg in Hs.
Qed.

Lemma X15_pause_ends_the_order_phase_witness :
  isConnected (session (on_day 24 one_bad_feed)) = true
  /\ (fetched_map four_instruments (session (on_day 24 one_bad_feed)) = []
      \/ gates_open (on_day 24 one_bad_feed)
           (fetched_map four_instruments (session (on_day 24 one_bad_feed)))
         = false ->
      filter is_sleep
        (fst (run_mlm_strategy_on four_instruments (on_day 24 one_bad_feed)
                true))
      = []).
Proof.
  split; [reflexivity|].
  apply (X15_pause_ends_the_order_phase four_instruments
           (on_day 24 one_bad_feed) true).
  reflexivity.
Defined.

(** ** The volatility gate *)

Section VolatilityGate.




End VolatilityGate.



(** ** Reading the map by key *)

Section ByKey.

Lemma dict_get_absent (k : string) (m : Dict) :
  ~ In k (map fst m) -> dict_get k m = None.
Proof.
  induction m as [|[k' v'] m IH]; [reflexivity|]. cbn. intros H.
  destruct (String.eqb_spec k' k) as [->|_]; [tauto|]. apply IH. tauto.
Qed.

Lemma entries_keys (ib : IB) (universe : list SymbolInfo) (k : string) :
  In k (map fst (flat_map (entry_of ib) universe)) ->
  In k (map symbol universe).
Proof.
  induction universe as [|x rest IH]; [intros []|]. cbn [flat_map].
  rewrite map_app, in_app_iff. intros [H|H].
  - left. symmetry. now apply (entry_of_keys ib x k).
  - right. now apply IH.
Qed.

Lemma dict_get_entries (ib : IB) (universe : list SymbolInfo)
  (info : SymbolInfo) :
  NoDup (map symbol universe) -> In info universe ->
  dict_get (symbol info) (flat_map (entry_of ib) universe)
  = snapshot_of ib info.
Proof.
  induction universe as [|x rest IH]; intros Hnd Hin; [destruct Hin|].
  inversion Hnd as [|? ? Hnotin Hnd']; subst. cbn [flat_map].
  destruct Hin as [->|Hin].
  - unfold entry_of at 1. destruct (snapshot_of ib info) as [d|].
    + cbn. now rewrite String.eqb_refl.
    + cbn [app]. apply dict_get_absent. intros H. apply Hnotin.
      now apply (entries_keys ib rest).
  - assert (NE : symbol x <> symbol info).
    { intros E. apply Hnotin. rewrite E. now apply in_map. }
    unfold entry_of at 1. destruct (snapshot_of ib x) as [d|].
    + cbn. destruct (String.eqb_spec (symbol x) (symbol info));
        [contradiction|now apply IH].
    + cbn [app]. now apply IH.
Qed.

End ByKey.

(** X17. Reading the map of snapshots by key, as the script does to build
    the list of volatilities, finds for every key the entry stored under it:
    the list holds the volatility of each entry once, in insertion order.
    A value assigned to a key is the one a lookup of that key returns, and
    the assignment changes no other key; with distinct symbols, the lookup
    of an instrument's symbol after the first loop returns that instrument's
    snapshot, and nothing when it has none. *)
Theorem X17_lookup_returns_what_was_stored (universe : list SymbolInfo)
  (ib : IB) :
  let m := fetched_map universe ib in
  all_vols_by_key m = map (fun kv => Some (sd_vol (snd kv))) m /\
  (forall k v m0, dict_get k (dict_set k v m0) = Some v) /\
  (forall k k' v m0,
      k' <> k -> dict_get k' (dict_set k v m0) = dict_get k' m0) /\
  (NoDup (map symbol universe) ->
   forall info,
     In info universe -> dict_get (symbol info) m = snapshot_of ib info).
Proof.
  intros m. split; [|split; [|split]].
  - unfold all_vols_by_key.
    rewrite <- (map_map (fun sym => dict_get sym m) (option_map sd_vol)).
    rewrite dict_get_by_keys
      by (apply fetch_loop_keys_nodup; constructor).
    rewrite map_map. reflexivity.
  - apply dict_get_set_same.
  - intros k k' v m0 NE. now apply dict_get_set_other.
  - intros Hnd info Hin. subst m.
    rewrite (fetched_map_entries ib universe Hnd).
    now apply dict_get_entries.
Qed.

(** ** No look-ahead *)

Section NoLookAhead.

Lemma nth_firstn {A} (l : list A) (k i : nat) (d : A) :
  i < k -> nth i (firstn k l) d = nth i l d.
Proof.
  revert k i. induction l as [|a l IH]; intros [|k] [|i] H; cbn;
    try reflexivity; try lia.
  apply IH. lia.
Qed.

Lemma combine_firstn_both {A B} (l : list A) (l' : list B) (k : nat) :
  firstn k (combine l l') = combine (firstn k l) (firstn k l').
Proof.
  revert l l'. induction k as [|k IH]; intros [|a l] [|b l']; cbn;
    try reflexivity.
  now rewrite IH.
Qed.

Lemma combine_firstn_S {A B} (l : list A) (l' : list B) (k : nat) :
  combine (firstn (S k) l) (firstn k l') = combine (firstn k l) (firstn k l').
Proof.
  revert l l'. induction k as [|k IH]; intros [|a l] [|b l'];
    try reflexivity.
  change (combine (a :: firstn (S k) l) (b :: firstn k l')
          = combine (a :: firstn k l) (b :: firstn k l')).
  cbn [combine]. now rewrite IH.
Qed.

Lemma pct_change_firstn (xs : list float) (k : nat) :
  pct_change (firstn k xs) = firstn k (pct_change xs).
Proof.
  destruct xs as [|x later]; [now destruct k|].
  destruct k as [|k]; [reflexivity|].
  change (firstn (S k) (x :: later)) with (x :: firstn k later).
  cbn [pct_change firstn]. f_equal.
  rewrite firstn_map, combine_firstn_both.
  change (x :: firstn k later) with (firstn (S k) (x :: later)).
  now rewrite combine_firstn_S.
Qed.

Lemma window_at_firstn (w i k : nat) (xs : list float) :
  i < k -> window_at w i (firstn k xs) = window_at w i xs.
Proof.
  intros H. unfold window_at. destruct (Nat.leb_spec w (i + 1)); [|reflexivity].
  f_equal. rewrite skipn_firstn_comm, firstn_firstn. f_equal. lia.
Qed.

Lemma rolling_at_firstn (w : nat) agg (xs : list float) (i k : nat) :
  i < k -> rolling_at w agg (firstn k xs) i = rolling_at w agg xs i.
Proof.
  intros H. unfold rolling_at. now rewrite window_at_firstn.
Qed.

Lemma seq_firstn (s n k : nat) : firstn k (seq s n) = seq s (Nat.min k n).
Proof.
  revert s n. induction k as [|k IH]; intros s [|n]; cbn; try reflexivity.
  now rewrite IH.
Qed.

(** The frame before [dropna], over the first [k] rows of the input. *)
Lemma with_indicators_firstn (vw mw : nat) (df : list Bar) (k : nat) :
  with_indicators vw mw (firstn k df) = firstn k (with_indicators vw mw df).
Proof.
  unfold with_indicators. cbv zeta.
  rewrite (firstn_map _ k (combine (seq 0 (length df)) df)).
  rewrite combine_firstn_both, seq_firstn, length_firstn.
  apply map_ext_in. intros [i b] Hin. cbn [fst snd].
  assert (Hi : i < Nat.min k (length df)).
  { apply in_combine_l in Hin. apply in_seq in Hin. lia. }
  assert (Hb : nth_error (firstn k df) i = Some b).
  { rewrite <- (length_firstn k df) in Hin. apply in_combine_seq in Hin.
    now rewrite Nat.sub_0_r in Hin. }
  assert (Hb' : nth_error df i = Some b).
  { rewrite nth_error_firstn in Hb.
    destruct (Nat.ltb_spec i k); [exact Hb|lia]. }
  destruct (columns_at vw mw (firstn k df) i b Hb) as (-> & -> & ->).
  destruct (columns_at vw mw df i b Hb') as (-> & -> & ->).
  rewrite <- !firstn_map, !pct_change_firstn.
  rewrite !rolling_at_firstn by lia. rewrite nth_firstn by lia.
  reflexivity.
Qed.

Lemma filter_none_below (rows : list Row) (s n t : nat) :
  map idx rows = seq s n -> t <= s ->
  filter (fun r => idx r <? t) rows = [].
Proof.
  revert s n. induction rows as [|r rows IH]; intros s n H Ht;
    [reflexivity|].
  destruct n as [|n]; [discriminate|]. cbn [map seq] in H.
  injection H as Hr Hrest. cbn [filter]. rewrite Hr.
  destruct (Nat.ltb_spec s t); [lia|]. apply (IH (S s) n Hrest). lia.
Qed.

Lemma firstn_by_index (rows : list Row) (s k : nat) :
  map idx rows = seq s (length rows) ->
  firstn k rows = filter (fun r => idx r <? s + k) rows.
Proof.
  revert s k. induction rows as [|r rows IH]; intros s k H;
    [now destruct k|].
  destruct k as [|k].
  - symmetry. apply (filter_none_below _ s _ _ H). lia.
  - cbn [map length seq] in H. injection H as Hr Hrest.
    cbn [firstn filter]. rewrite Hr.
    destruct (Nat.ltb_spec s (s + S k)); [|lia]. f_equal.
    rewrite (IH (S s) k Hrest). apply filter_ext. intros x.
    now replace (S s + k) with (s + S k) by lia.
Qed.

Lemma filter_filter_comm {A} (p q : A -> bool) (l : list A) :
  filter p (filter q l) = filter q (filter p l).
Proof.
  induction l as [|a l IH]; [reflexivity|]. cbn.
  destruct (p a) eqn:Hp, (q a) eqn:Hq; cbn; rewrite ?Hp, ?Hq, IH;
    reflexivity.
Qed.

End NoLookAhead.

(** X18. The derived rows look at the past only: computing the indicators
    on the first [k] rows of a frame gives exactly the rows that computing
    them on the whole frame gives under index labels below [k].  Bars that
    arrive later change no row derived before. *)
Theorem X18_no_look_ahead (vw mw : nat) (df : list Bar) (k : nat) :
  compute_indicators_with vw mw (firstn k df)
  = filter (fun r => idx r <? k) (compute_indicators_with vw mw df).
Proof.
  unfold compute_indicators_with, dropna.
  rewrite with_indicators_firstn.
  rewrite (firstn_by_index (with_indicators vw mw df) 0 k).
  - cbn [Nat.add]. apply filter_filter_comm.
  - rewrite map_idx_with_indicators. f_equal.
    unfold with_indicators. now rewrite length_map, length_combine,
      length_seq, Nat.min_id.
Qed.

(** ** A basket of flat prices *)

Section FlatBasket.

Lemma np_mean_zeros (n : nat) :
  0 < n -> (Z.of_nat n < 2 ^ 63)%Z -> np_mean (repeat 0%float n) = 0%float.
Proof.
  intros Hn Hb. unfold np_mean. rewrite repeat_length, fsum_zeros.
  apply zero_div_positive. now apply float_of_nat_positive.
Qed.

(** Every row kept of a frame of one finite non-zero close has the
    volatility 0. *)
Lemma flat_frame_kept_vol (vw mw : nat) (c : float) (df : list Bar)
  (r : Row) :
  2 <= vw -> (Z.of_nat vw < 2 ^ 63)%Z ->
  finite_nonzero c = true ->
  (forall b, In b df -> close (data b) = c) ->
  In r (compute_indicators_with vw mw df) ->
  rolling_std_20 r = 0%float.
Proof.
  intros Hvw Hb Hc Hall Hin.
  destruct (kept_row_position vw mw df r Hin) as (Hn & Hv & _).
  assert (Hlt : idx r < length df) by (apply nth_error_Some; congruence).
  apply in_compute_indicators_with in Hin. destruct Hin as [Hin _].
  apply in_with_indicators in Hin. destruct Hin as (i & b & _ & ->).
  cbn [idx rolling_std_20] in *.
  rewrite (map_constant _ c df Hall).
  destruct (length df) as [|k]; [lia|].
  rewrite (pct_change_constant c k Hc). unfold rolling_at.
  rewrite window_of_zeros by lia.
  rewrite forallb_not_nan_zeros. now apply sample_std_zeros.
Qed.

Lemma flat_snapshot_vol (ib : IB) (info : SymbolInfo) (d : SymbolData) :
  (forall bars,
     reqHistoricalData ib (cont_fut_of info) = Returned bars ->
     exists c, finite_nonzero c = true /\
               forall b, In b bars -> close b = c) ->
  snapshot_of ib info = Some d -> sd_vol d = 0%float.
Proof.
  intros Hflat Hs.
  destruct (snapshot_of_cases ib info d Hs)
    as (b & bars & latest & Hreq & Hdf & Hlast & _ & ->).
  destruct (Hflat _ Hreq) as (c & Hc & Hall).
  apply iloc_last_in in Hlast. destruct Hlast as [Hin _]. rewrite Hdf in Hin.
  apply (flat_frame_kept_vol VOL_WINDOW MA_WINDOW c
           (attach_symbol (symbol info) (b :: bars)) latest);
    try assumption.
  - unfold VOL_WINDOW. lia.
  - unfold VOL_WINDOW. lia.
  - intros x Hx. unfold attach_symbol in Hx. apply in_map_iff in Hx.
    destruct Hx as (y & <- & Hy). cbn [data]. now apply Hall.
Qed.

End FlatBasket.

(** X19. A basket of flat prices never trades.  When every series the
    session returns has one finite non-zero close throughout (the constant
    may differ between instruments), every stored volatility is exactly 0,
    so is their average, the volatility gate stays shut, and the run places
    no order, on the 25th as on any other day. *)
Theorem X19_flat_prices_never_trade (universe : list SymbolInfo) (w : World)
  (paper : bool) :
  isConnected (session w) = true ->
  (Z.of_nat (length universe) < 2 ^ 63)%Z ->
  (forall info bars,
     In info universe ->
     reqHistoricalData (session w) (cont_fut_of info) = Returned bars ->
     exists c, finite_nonzero c = true /\
               forall b, In b bars -> close b = c) ->
  let m := fetched_map universe (session w) in
  (forall kv, In kv m -> sd_vol (snd kv) = 0%float) /\
  (m <> [] -> avg_vol_of m = 0%float) /\
  is_volatile_of m = false /\
  orders_of (fst (run_mlm_strategy_on universe w paper)) = [].
Proof.
  intros Hc Hlen Hflat m.
  assert (Hvols : forall kv, In kv m -> sd_vol (snd kv) = 0%float).
  { intros kv Hin. unfold m, fetched_map in Hin.
    destruct (fetch_loop_entries _ _ _ _ Hin)
      as [[]|(info & Hi & _ & Hs)].
    apply (flat_snapshot_vol (session w) info); [|exact Hs].
    intros bars. now apply Hflat. }
  assert (Hm : length m <= length universe).
  { pose proof (fetch_loop_length (session w) universe []) as H.
    cbn [length Nat.add] in H. exact H. }
  assert (Havg : m <> [] -> avg_vol_of m = 0%float).
  { intros Hne. unfold avg_vol_of. cbv zeta.
    rewrite (map_constant (fun kv : string * SymbolData => sd_vol (snd kv))
               0%float m Hvols).
    apply np_mean_zeros; [|lia].
    destruct m; [congruence|cbn; lia]. }
  assert (Hvol : is_volatile_of m = false).
  { unfold is_volatile_of. destruct m as [|kv rest] eqn:E; [reflexivity|].
    rewrite Havg by congruence. reflexivity. }
  repeat split; try assumption.
  rewrite (run_orders universe w paper Hc), gate_trace_orders.
  fold m. rewrite Hvol, andb_false_r. now destruct m.
Qed.

Lemma X19_flat_prices_never_trade_witness :
  orders_of
    (fst (run_mlm_strategy_on four_instruments (on_day 25 quiet_session)
            true))
  = [].
Proof.
  refine (proj2 (proj2 (proj2
    (X19_flat_prices_never_trade four_instruments (on_day 25 quiet_session)
       true eq_refl _ _)))).
  - cbn. lia.
  - intros info bars _ H.
    change (Returned (flat_series 100 250) = Returned bars) in H.
    injection H as <-. exists 100%float. split; [reflexivity|].
    intros b Hb. unfold flat_series in Hb. apply in_map_iff in Hb.
    destruct Hb as (i & <- & _). reflexivity.
Defined.

(** ** The direction of a trade *)

Section Direction.



End Direction.


